(** * Virtual Congress influence dashboard: name unification, aggregation,
      daily ranking and grid densification (src/App.py)

    A shallow embedding of the data pipeline of [App.py] and the properties
    its specification states about it.

    Modelling conventions.
    - A Python [str] is a [string]; [str.lower] maps the letters [A]-[Z] to
      [a]-[z] and leaves every other character alone.
    - [pattern in s] on strings is [str_in pattern s].
    - A calendar date is its day number, a [Z]; consecutive days differ by 1.
    - The [Political Influence] column holds integers ([Z]); section 5
      adds the machine types of the columns (int64, float64).  A column of
      fractional influences, and records without a date or a user, are not
      part of the embedding.
    - A missing cell of a data frame (NaN, NaT) is [None].
    - An exception raised by pandas is the result [None] of the function.
    - [sort_values] is called with the default [kind], for which pandas
      promises a sorted permutation of the rows and no order among equal
      keys; the ranker is written over any sort that keeps this promise. *)

From Stdlib Require Import List ZArith String Ascii Bool Lia Permutation Sorted.
Import ListNotations.

Open Scope string_scope.

(* ------------------------------------------------------------------ *)
(** * 1. Name unification logic *)
(* ------------------------------------------------------------------ *)

Module Unifier.

(** [c.lower()] for one character. *)
Definition lower_char (c : ascii) : ascii :=
  let n := N_of_ascii c in
  if (65 <=? n)%N && (n <=? 90)%N then ascii_of_N (n + 32) else c.

(** [s.lower()]. *)
Fixpoint lower (s : string) : string :=
  match s with
  | EmptyString => EmptyString
  | String c rest => String (lower_char c) (lower rest)
  end.

(** [pattern in s]: [pattern] occurs in [s] at some position. *)
Fixpoint str_in (pattern s : string) : bool :=
  prefix pattern s ||
  match s with
  | EmptyString => false
  | String _ rest => str_in pattern rest
  end.

(** A rule is [([list_of_patterns], unified_display_name)]. *)
Definition rule : Type := list string * string.

Definition unification_map : list rule :=
  [ (["sullivan"], "Sullivan");
    (["deb"], "Deb");
    (["diana"], "Diana");
    (["kyo"], "Kyo");
    (["fmr president"; "fmr_president"], "Fmr President");
    (["pluribus"], "Pluribus");
    (["aislinn"], "Aislinn");
    (["kayla"], "Kayla");
    (["long"], "Long");
    (["james hersey"; "james_heresy"], "James Hersey");
    (["kearsley"], "Kearsley");
    (["zimmerman"], "Zimmerman");
    (["toward"], "Toward");
    (["nord"], "Nord");
    (["molhoj"], "Molhoj");
    (["posting"], "Posting");
    (["iron smith"], "Iron Smith");
    (["pickle hersey"], "Pickle Hersey");
    (["ducky"], "Ducky");
    (["marks"], "Marks");
    (["hull"], "Hull");
    (["mccarthy"], "McCarthy");
    (["loz"], "Loz");
    (["hoffman"], "Hoffman");
    (["bloodshed"], "Bloodshed");
    (["miller"], "Miller");
    (["watluhum"], "Watluhum");
    (["derek"], "Derek") ].

(** The inner loop [for pattern in patterns: if pattern.lower() in name_lower]. *)
Fixpoint any_pattern (patterns : list string) (name_lower : string) : bool :=
  match patterns with
  | [] => false
  | pattern :: rest =>
      if str_in (lower pattern) name_lower then true
      else any_pattern rest name_lower
  end.

(** The outer loop [for patterns, unified_display in unification_map]; the
    result is [Some unified_display] when the loop returns and [None] when it
    runs to its end. *)
Fixpoint scan_rules (rules : list rule) (name_lower : string) : option string :=
  match rules with
  | [] => None
  | (patterns, unified_display) :: rest =>
      if any_pattern patterns name_lower then Some unified_display
      else scan_rules rest name_lower
  end.

Definition unify_name (name : string) : string :=
  let name_lower := lower name in
  if str_in "hull's wife" name_lower then name
  else
    match scan_rules unification_map name_lower with
    | Some unified_display => unified_display
    | None => name
    end.

(** The canonical display names of the rule table. *)
Definition display_names : list string := map snd unification_map.

(** Boolean form of "no rule of [rules] matches", for closed inputs. *)
Definition no_rule_matches (rules : list rule) (name_lower : string) : bool :=
  forallb (fun r => negb (any_pattern (fst r) name_lower)) rules.

End Unifier.

(* ------------------------------------------------------------------ *)
(** * 2. Data frames: the pandas operations the pipeline uses *)
(* ------------------------------------------------------------------ *)

Module Frames.
Local Open Scope Z_scope.

(** [range(a, b)]. *)
Definition range (a b : Z) : list Z :=
  map (fun i => a + Z.of_nat i) (seq 0 (Z.to_nat (b - a))).

(** [column.sum()]. *)
Definition column_sum (column : list Z) : Z := fold_right Z.add 0 column.

(** [column.min()] and [column.max()]; an empty column has none (NaT). *)
Definition column_min (column : list Z) : option Z :=
  match column with
  | [] => None
  | x :: rest => Some (fold_left Z.min rest x)
  end.

Definition column_max (column : list Z) : option Z :=
  match column with
  | [] => None
  | x :: rest => Some (fold_left Z.max rest x)
  end.

(** The present (non-NaN) cells of a column. *)
Fixpoint dropna (column : list (option Z)) : list Z :=
  match column with
  | [] => []
  | Some x :: rest => x :: dropna rest
  | None :: rest => dropna rest
  end.

(** [column.max(skipna=True)]: NaN when every cell is missing. *)
Definition column_max_skipna (column : list (option Z)) : option Z :=
  column_max (dropna column).

(** [cell.fillna(value)]; filling with NaN leaves a missing cell missing. *)
Definition fillna (value cell : option Z) : option Z :=
  match cell with
  | Some x => Some x
  | None => value
  end.

(** [pd.date_range(start, end, freq="D")]: every day from [start] to [end],
    both included; raises when a bound is NaT. *)
Definition date_range (start stop : option Z) : option (list Z) :=
  match start, stop with
  | Some a, Some b => Some (range a (b + 1))
  | _, _ => None
  end.

(** [column.unique()]: the distinct values in order of first appearance. *)
Fixpoint unique (column : list string) : list string :=
  match column with
  | [] => []
  | x :: rest => x :: filter (fun y => negb (y =? x)%string) (unique rest)
  end.

Section GroupKeys.
Context {K : Type} (compare : K -> K -> comparison).

Fixpoint insert_key (k : K) (keys : list K) : list K :=
  match keys with
  | [] => [k]
  | k' :: rest =>
      match compare k k' with
      | Lt => k :: keys
      | Eq => keys
      | Gt => k' :: insert_key k rest
      end
  end.

(** The group keys of [groupby] (with its default [sort=True]): the
    distinct keys of the frame in ascending order. *)
Definition group_keys (keys : list K) : list K :=
  fold_right insert_key [] keys.
End GroupKeys.

(** The order of the keys [(Date, UnifiedUser)]: by date, then by name. *)
Definition key : Type := Z * string.

Definition key_compare (k1 k2 : key) : comparison :=
  match Z.compare (fst k1) (fst k2) with
  | Eq => String.compare (snd k1) (snd k2)
  | c => c
  end.

Definition key_eqb (k1 k2 : key) : bool :=
  (fst k1 =? fst k2) && (snd k1 =? snd k2)%string.

Definition key_eq_dec (a b : key) : {a = b} + {a <> b}.
Proof.
  decide equality; [apply string_dec | apply Z.eq_dec].
Defined.

(** [df.groupby("Date").apply(f).reset_index(drop=True)]: [f] applied to the
    rows of each date, the results stacked in ascending order of the date. *)
Definition groupby_date_apply {A B : Type} (date_of : A -> Z)
    (f : list A -> list B) (df : list A) : list B :=
  flat_map (fun d => f (filter (fun r => (date_of r =? d)%Z) df))
           (group_keys Z.compare (map date_of df)).

End Frames.

(* ------------------------------------------------------------------ *)
(** * 3. Data load and preprocessing, grid densification *)
(* ------------------------------------------------------------------ *)

Module Pipeline.
Import Unifier Frames.
Local Open Scope Z_scope.

(** A row of the CSV file. *)
Record RawRecord : Type := mkRaw {
  raw_Date : Z;
  raw_User : string;
  raw_Influence : Z
}.

(** A row after [df["UnifiedUser"] = df["User"].apply(unify_name)]. *)
Record UnifiedRecord : Type := mkUnified {
  u_Date : Z;
  u_User : string;
  u_Influence : Z;
  u_UnifiedUser : string
}.

(** A row of [grouped] before the ranks are computed. *)
Record GroupedRow : Type := mkGrouped {
  g_Date : Z;
  g_UnifiedUser : string;
  g_Influence : Z
}.

(** A row of the frame [load_and_preprocess_data] returns. *)
Record Row : Type := mkRow {
  Date : Z;
  UnifiedUser : string;
  Political_Influence : Z;
  Rank : Z
}.

(** A row of the left merge of the full grid with the ranked frame. *)
Record MergedRow : Type := mkMerged {
  m_Date : Z;
  m_UnifiedUser : string;
  m_Influence : option Z;
  m_Rank : option Z
}.

Definition u_key (r : UnifiedRecord) : key := (u_Date r, u_UnifiedUser r).
Definition g_key (r : GroupedRow) : key := (g_Date r, g_UnifiedUser r).
Definition row_key (r : Row) : key := (Date r, UnifiedUser r).
Definition m_key (r : MergedRow) : key := (m_Date r, m_UnifiedUser r).

(** ** [sort_values("Political Influence", ascending=False)]

    The call leaves [kind] at its default, quicksort, which pandas documents
    as not stable: the result holds the rows of the group, by descending
    influence, and the order of rows with equal influence is not fixed.  The
    pipeline is therefore written over any function with this contract. *)
Definition descending (a b : GroupedRow) : Prop :=
  (g_Influence b <= g_Influence a)%Z.

Definition sort_values_spec (sort_values : list GroupedRow -> list GroupedRow)
  : Prop :=
  forall group,
    Permutation group (sort_values group)
    /\ StronglySorted descending (sort_values group).

(** A sort with this contract: an insertion sort, which keeps rows of equal
    influence in their order. *)
Fixpoint insert_desc (r : GroupedRow) (sorted : list GroupedRow)
  : list GroupedRow :=
  match sorted with
  | [] => [r]
  | r' :: rest =>
      if (g_Influence r' <? g_Influence r)%Z then r :: sorted
      else r' :: insert_desc r rest
  end.

Definition sort_values_keep_ties (group : list GroupedRow) : list GroupedRow :=
  fold_left (fun sorted r => insert_desc r sorted) group [].

(** ** [load_and_preprocess_data] *)

Definition apply_unify_name (csv : list RawRecord) : list UnifiedRecord :=
  map (fun r => mkUnified (raw_Date r) (raw_User r) (raw_Influence r)
                          (unify_name (raw_User r))) csv.

(** [df.groupby(["Date", "UnifiedUser"], as_index=False)["Political Influence"].sum()] *)
Definition groupby_sum (df : list UnifiedRecord) : list GroupedRow :=
  map (fun k =>
         mkGrouped (fst k) (snd k)
           (column_sum (map u_Influence
                          (filter (fun r => key_eqb (u_key r) k) df))))
      (group_keys key_compare (map u_key df)).

Definition with_rank (r : GroupedRow) (rank : Z) : Row :=
  mkRow (g_Date r) (g_UnifiedUser r) (g_Influence r) rank.

(** A ranked row without its [Rank] column. *)
Definition unrank (r : Row) : GroupedRow :=
  mkGrouped (Date r) (UnifiedUser r) (Political_Influence r).

Definition compute_daily_ranks
    (sort_values : list GroupedRow -> list GroupedRow)
    (group : list GroupedRow) : list Row :=
  let group := sort_values group in
  map (fun p => with_rank (fst p) (snd p))
      (combine group (range 1 (Z.of_nat (List.length group) + 1))).

Definition load_and_preprocess_data
    (sort_values : list GroupedRow -> list GroupedRow)
    (csv : list RawRecord) : list Row :=
  let df := apply_unify_name csv in
  let grouped := groupby_sum df in
  groupby_date_apply g_Date (compute_daily_ranks sort_values) grouped.

(** The stable tie-break: among the rows of a date, those of equal influence
    come out of the ranker in the order in which they went in. *)
Definition keeps_tie_order
    (sort_values : list GroupedRow -> list GroupedRow) : Prop :=
  forall csv D v,
    filter (fun r => g_Influence r =? v)
      (map unrank
         (filter (fun r => Date r =? D)
            (load_and_preprocess_data sort_values csv)))
    = filter (fun r => g_Influence r =? v)
        (filter (fun r => g_Date r =? D)
           (groupby_sum (apply_unify_name csv))).

(** ** [create_all_dates_user_df] *)

(** [pd.merge(full_df, df, how="left", on=["Date", "UnifiedUser"])]: each
    grid cell with the rows of [df] under its key, or with missing values when
    there is none. *)
Definition merge_left (full_df : list key) (df : list Row) : list MergedRow :=
  flat_map
    (fun k =>
       match filter (fun r => key_eqb (row_key r) k) df with
       | [] => [mkMerged (fst k) (snd k) None None]
       | found =>
           map (fun r => mkMerged (fst k) (snd k)
                           (Some (Political_Influence r)) (Some (Rank r)))
               found
       end)
    full_df.

Definition fill_missing (group : list MergedRow) : list MergedRow :=
  let max_rank := column_max_skipna (map m_Rank group) in
  map (fun r => mkMerged (m_Date r) (m_UnifiedUser r)
                  (fillna (Some 0%Z) (m_Influence r))
                  (fillna max_rank (m_Rank r)))
      group.

Definition create_all_dates_user_df (df : list Row)
  : option (list MergedRow) :=
  match date_range (column_min (map Date df)) (column_max (map Date df)) with
  | None => None
  | Some all_dates =>
      let all_users := unique (map UnifiedUser df) in
      let full_df := list_prod all_dates all_users in
      let merged := merge_left full_df df in
      Some (groupby_date_apply m_Date fill_missing merged)
  end.

(** The frames the densifier is given: one row for each key. *)
Definition one_row_per_key (df : list Row) : Prop := NoDup (map row_key df).

(** The grid row that carries the values of the aggregated row [r]. *)
Definition real_row (r : Row) : MergedRow :=
  mkMerged (Date r) (UnifiedUser r)
           (Some (Political_Influence r)) (Some (Rank r)).

(** [bottom] is the largest rank among the rows of [df] on the date [d]. *)
Definition bottom_rank (df : list Row) (d bottom : Z) : Prop :=
  (exists r, In r df /\ Date r = d /\ Rank r = bottom)
  /\ (forall r, In r df -> Date r = d -> Rank r <= bottom).

(** How many rows of [grid] sit at the cell [k]. *)
Definition cell_count (k : key) (grid : list MergedRow) : nat :=
  List.length (filter (fun r => key_eqb (m_key r) k) grid).

End Pipeline.

(* ------------------------------------------------------------------ *)
(** * 4. The data path of [main]

    What [main] computes from the grid between its widgets.  The values the
    widgets return (the selected users, the two sliders) are arguments. *)
(* ------------------------------------------------------------------ *)

Module Dashboard.
Import Frames Pipeline.
Local Open Scope Z_scope.

(** [sorted(names)]: the names in ascending order. *)
Fixpoint insert_sorted (name : string) (names : list string) : list string :=
  match names with
  | [] => [name]
  | name' :: rest =>
      if String.leb name name' then name :: names
      else name' :: insert_sorted name rest
  end.

Definition sorted (names : list string) : list string :=
  fold_right insert_sorted [] names.

(** [all_users_sorted = sorted(df_full["UnifiedUser"].unique())] *)
Definition all_users_sorted (df_full : list MergedRow) : list string :=
  sorted (unique (map m_UnifiedUser df_full)).

(** The default of the multiselect: [all_users_sorted[:3]]. *)
Definition default_selected_users (df_full : list MergedRow) : list string :=
  firstn 3 (all_users_sorted df_full).

(** [cell >= v] and [cell <= v] on a column: False on a missing cell. *)
Definition cell_ge (cell : option Z) (v : Z) : bool :=
  match cell with
  | Some x => v <=? x
  | None => false
  end.

Definition cell_le (cell : option Z) (v : Z) : bool :=
  match cell with
  | Some x => x <=? v
  | None => false
  end.

(** [df_full[(df_full["Date"] >= date_range[0]) & (df_full["Date"] <= date_range[1])]] *)
Definition filter_dates (date_range : Z * Z) (df_full : list MergedRow)
  : list MergedRow :=
  filter (fun r => (fst date_range <=? m_Date r)
                   && (m_Date r <=? snd date_range)) df_full.

(** [df_filtered[df_filtered["UnifiedUser"].isin(selected_users)]] *)
Definition filter_users (selected_users : list string)
    (df_filtered : list MergedRow) : list MergedRow :=
  filter (fun r => existsb (String.eqb (m_UnifiedUser r)) selected_users)
         df_filtered.

(** The filter by influence score. *)
Definition filter_influence (influence_range : Z * Z)
    (df_filtered : list MergedRow) : list MergedRow :=
  filter (fun r => cell_ge (m_Influence r) (fst influence_range)
                   && cell_le (m_Influence r) (snd influence_range))
         df_filtered.

(** The default value of the date slider: [(min_date, max_date)]. *)
Definition default_date_range (df_full : list MergedRow) : option (Z * Z) :=
  match column_min (map m_Date df_full), column_max (map m_Date df_full) with
  | Some min_date, Some max_date => Some (min_date, max_date)
  | _, _ => None
  end.

(** The default value of the influence slider:
    [(min_influence, max_influence)]; [min] and [max] skip missing cells. *)
Definition default_influence_range (df_filtered : list MergedRow)
  : option (Z * Z) :=
  match column_min (dropna (map m_Influence df_filtered)),
        column_max (dropna (map m_Influence df_filtered)) with
  | Some min_influence, Some max_influence =>
      Some (min_influence, max_influence)
  | _, _ => None
  end.








End Dashboard.

(* ------------------------------------------------------------------ *)
(** * 5. The columns as pandas stores them

    [read_csv] gives a [Political Influence] column of whole numbers the
    dtype int64, and [groupby(...).sum()] adds it up in 64 bits.  The left
    merge of [create_all_dates_user_df] turns a column into float64 when it
    puts a missing value into it.  The functions below are
    [load_and_preprocess_data] and [create_all_dates_user_df] with these two
    conversions written out; a float64 value that is a whole number is
    written as that number. *)
(* ------------------------------------------------------------------ *)

Module Dtypes.
Import Unifier Frames Pipeline.
Local Open Scope Z_scope.

(** The values of an int64 cell. *)
Definition in_int64 (z : Z) : Prop := - 2 ^ 63 <= z < 2 ^ 63.

(** What a 64-bit register keeps of [z]: [z] modulo [2^64], signed. *)
Definition wrap_int64 (z : Z) : Z := (z + 2 ^ 63) mod 2 ^ 64 - 2 ^ 63.

(** [column.sum()] of an int64 column: a 64-bit accumulator. *)
Definition sum_int64 (column : list Z) : Z :=
  fold_left (fun acc x => wrap_int64 (acc + x)) column 0.

(** [df.groupby(["Date", "UnifiedUser"], as_index=False)["Political Influence"].sum()]
    on an int64 column. *)
Definition groupby_sum_int64 (df : list UnifiedRecord) : list GroupedRow :=
  map (fun k =>
         mkGrouped (fst k) (snd k)
           (sum_int64 (map u_Influence
                         (filter (fun r => key_eqb (u_key r) k) df))))
      (group_keys key_compare (map u_key df)).

Definition load_and_preprocess_data_int64
    (sort_values : list GroupedRow -> list GroupedRow)
    (csv : list RawRecord) : list Row :=
  let df := apply_unify_name csv in
  let grouped := groupby_sum_int64 df in
  groupby_date_apply g_Date (compute_daily_ranks sort_values) grouped.







End Dtypes.

Module UnifierFacts.
Import Unifier.

(** ** Facts about the two loops *)

Lemma any_pattern_true patterns name_lower :
  any_pattern patterns name_lower = true <->
  exists pattern, In pattern patterns /\ str_in (lower pattern) name_lower = true.
Proof.
  induction patterns as [|p ps IH]; simpl.
  - split; [discriminate | intros (q & [] & _)].
  - destruct (str_in (lower p) name_lower) eqn:Hp.
    + split; [intros _; exists p; auto | reflexivity].
    + rewrite IH. split.
      * intros (q & Hq & Hm). exists q. auto.
      * intros (q & [Hq | Hq] & Hm).
        -- subst q. congruence.
        -- exists q. auto.
Qed.

Lemma any_pattern_false patterns name_lower :
  any_pattern patterns name_lower = false <->
  forall pattern, In pattern patterns -> str_in (lower pattern) name_lower = false.
Proof.
  split.
  - intros Hn p Hp. destruct (str_in (lower p) name_lower) eqn:E; [|reflexivity].
    assert (any_pattern patterns name_lower = true) as Ht
        by (apply any_pattern_true; eauto).
    congruence.
  - intros Hall. destruct (any_pattern patterns name_lower) eqn:E; [|reflexivity].
    apply any_pattern_true in E. destruct E as (p & Hp & Hm).
    rewrite (Hall p Hp) in Hm. discriminate.
Qed.

(** The scan returns the display name of the first rule that matches. *)
Lemma scan_rules_first earlier patterns unified_display later name_lower :
  (forall ps u, In (ps, u) earlier -> any_pattern ps name_lower = false) ->
  any_pattern patterns name_lower = true ->
  scan_rules (earlier ++ (patterns, unified_display) :: later)%list name_lower
  = Some unified_display.
Proof.
  induction earlier as [|[ps u] earlier IH]; simpl; intros Hearlier Hm.
  - now rewrite Hm.
  - rewrite (Hearlier ps u) by auto.
    apply IH; [|assumption]. intros ps' u' Hin. apply (Hearlier ps' u'). auto.
Qed.

Lemma scan_rules_none rules name_lower :
  (forall ps u, In (ps, u) rules -> any_pattern ps name_lower = false) ->
  scan_rules rules name_lower = None.
Proof.
  induction rules as [|[ps u] rules IH]; simpl; intros Hall; [reflexivity|].
  rewrite (Hall ps u) by auto.
  apply IH. intros ps' u' Hin. apply (Hall ps' u'). auto.
Qed.

(** Whatever the scan returns is the display name of a rule that matches. *)
Lemma scan_rules_some rules name_lower unified_display :
  scan_rules rules name_lower = Some unified_display ->
  exists patterns, In (patterns, unified_display) rules
                   /\ any_pattern patterns name_lower = true.
Proof.
  induction rules as [|[ps u] rules IH]; simpl; [discriminate|].
  destruct (any_pattern ps name_lower) eqn:E.
  - intros [= <-]. exists ps. auto.
  - intros H. destruct (IH H) as (ps' & Hin & Hm). exists ps'. auto.
Qed.

Lemma no_rule_matches_spec rules name_lower :
  no_rule_matches rules name_lower = true ->
  forall ps u pattern,
    In (ps, u) rules -> In pattern ps ->
    str_in (lower pattern) name_lower = false.
Proof.
  unfold no_rule_matches. rewrite forallb_forall. intros Hall ps u p Hr Hp.
  specialize (Hall (ps, u) Hr). simpl in Hall.
  apply negb_true_iff in Hall.
  now apply (proj1 (any_pattern_false ps name_lower) Hall).
Qed.

(** ** The rule table under [unify_name] *)

(** No display name of the table contains "hull's wife", and each one is
    mapped to itself. *)
Lemma display_names_fixed :
  forall u, In u display_names ->
    str_in "hull's wife" (lower u) = false /\ unify_name u = u.
Proof.
  assert (forallb (fun u => negb (str_in "hull's wife" (lower u))
                            && (unify_name u =? u)) display_names = true) as H
      by (vm_compute; reflexivity).
  rewrite forallb_forall in H. intros u Hu. specialize (H u Hu).
  apply andb_true_iff in H. destruct H as [H1 H2].
  apply negb_true_iff in H1. apply String.eqb_eq in H2. auto.
Qed.

Lemma unify_name_cases name :
  (str_in "hull's wife" (lower name) = true /\ unify_name name = name)
  \/ (str_in "hull's wife" (lower name) = false
      /\ scan_rules unification_map (lower name) = None
      /\ unify_name name = name)
  \/ (str_in "hull's wife" (lower name) = false
      /\ scan_rules unification_map (lower name) = Some (unify_name name)).
Proof.
  unfold unify_name.
  destruct (str_in "hull's wife" (lower name)) eqn:Hw; [left; auto | right].
  destruct (scan_rules unification_map (lower name)) eqn:Hs; [right | left]; auto.
Qed.

(** ** The claims about [unify_name] *)

(** C1.  For a name whose lowercased form does not contain "hull's wife": when
    it contains, case-insensitively, a pattern of some rule of the ordered
    table and no pattern of any earlier rule, [unify_name] returns the display
    name of that rule; when it contains no pattern of any rule, [unify_name]
    returns the name unchanged. *)
Theorem unify_name_first_matching_rule (name : string)
    (Hwife : str_in "hull's wife" (lower name) = false) :
  (forall earlier patterns unified_display later,
      unification_map = (earlier ++ (patterns, unified_display) :: later)%list ->
      (exists pattern, In pattern patterns
                       /\ str_in (lower pattern) (lower name) = true) ->
      (forall ps u pattern, In (ps, u) earlier -> In pattern ps ->
                            str_in (lower pattern) (lower name) = false) ->
      unify_name name = unified_display)
  /\ ((forall ps u pattern, In (ps, u) unification_map -> In pattern ps ->
                            str_in (lower pattern) (lower name) = false) ->
      unify_name name = name).
Proof.
  split.
  - intros earlier patterns unified_display later Hmap Hhit Hearlier.
    unfold unify_name. rewrite Hwife, Hmap.
    rewrite scan_rules_first; [reflexivity | | now apply any_pattern_true].
    intros ps u Hin. apply any_pattern_false. intros p Hp.
    now apply (Hearlier ps u p).
  - intros Hnone. unfold unify_name. rewrite Hwife.
    rewrite scan_rules_none; [reflexivity|].
    intros ps u Hin. apply any_pattern_false. intros p Hp.
    now apply (Hnone ps u p).
Qed.

Lemma unify_name_first_matching_rule_witness :
  unify_name "Debra Long" = "Deb" /\ unify_name "Zed" = "Zed".
Proof.
  split.
  - apply (proj1 (unify_name_first_matching_rule "Debra Long" eq_refl)
             [(["sullivan"], "Sullivan")] ["deb"] "Deb"
             (skipn 2 unification_map) eq_refl).
    + exists "deb". split; [left; reflexivity | reflexivity].
    + apply (no_rule_matches_spec [(["sullivan"], "Sullivan")]). reflexivity.
  - apply (proj2 (unify_name_first_matching_rule "Zed" eq_refl)).
    apply (no_rule_matches_spec unification_map). reflexivity.
Defined.

(** C2.  A name whose lowercased form contains "hull's wife" is returned
    unchanged by [unify_name]; in particular the result is not "Hull". *)
Theorem unify_name_hulls_wife_unchanged (name : string)
    (Hwife : str_in "hull's wife" (lower name) = true) :
  unify_name name = name /\ unify_name name <> "Hull".
Proof.
  assert (unify_name name = name) as Hsame
      by (unfold unify_name; now rewrite Hwife).
  split; [exact Hsame|].
  rewrite Hsame. intros ->. vm_compute in Hwife. discriminate.
Qed.

Lemma unify_name_hulls_wife_unchanged_witness :
  unify_name "Hull's Wife Jane" = "Hull's Wife Jane"
  /\ unify_name "Hull's Wife Jane" <> "Hull".
Proof.
  apply (unify_name_hulls_wife_unchanged "Hull's Wife Jane"). reflexivity.
Defined.

(** C3, as the specification words it, fails: "deb hull's wife" contains the
    literal "hull's wife" and the pattern of the rule "Deb", which is a rule
    of the table other than the "hull" rule, and [unify_name] does not return
    "Deb". *)
Lemma hulls_wife_skips_every_rule :
  str_in "hull's wife" "deb hull's wife" = true
  /\ In (["deb"], "Deb") unification_map
  /\ (["deb"], "Deb") <> (["hull"], "Hull")
  /\ str_in (lower "deb") (lower "deb hull's wife") = true
  /\ unify_name "deb hull's wife" = "deb hull's wife"
  /\ unify_name "deb hull's wife" <> "Deb".
Proof.
  repeat split; try reflexivity.
  - right. left. reflexivity.
  - discriminate.
  - vm_compute. discriminate.
Qed.

(** C3, amended.  A name whose lowercased form contains "hull's wife" bypasses
    every rule of the table, not the "hull" rule alone: also when it contains
    a pattern of a rule, [unify_name] returns the name unchanged, and the
    result is not the display name of that rule. *)
Theorem unify_name_hulls_wife_bypasses_all_rules
    (name : string) (patterns : list string) (unified_display : string)
    (Hwife : str_in "hull's wife" (lower name) = true)
    (Hrule : In (patterns, unified_display) unification_map)
    (Hhit : any_pattern patterns (lower name) = true) :
  unify_name name = name /\ unify_name name <> unified_display.
Proof.
  assert (unify_name name = name) as Hsame
      by (unfold unify_name; now rewrite Hwife).
  split; [exact Hsame|].
  rewrite Hsame. intros ->.
  assert (In unified_display display_names) as Hd
      by (apply (in_map snd _ _ Hrule)).
  destruct (display_names_fixed _ Hd) as [Hno _]. congruence.
Qed.

Lemma unify_name_hulls_wife_bypasses_all_rules_witness :
  unify_name "Hull's wife Kayla" = "Hull's wife Kayla"
  /\ unify_name "Hull's wife Kayla" <> "Kayla".
Proof.
  apply (unify_name_hulls_wife_bypasses_all_rules
           "Hull's wife Kayla" ["kayla"] "Kayla").
  - reflexivity.
  - simpl. do 7 right. left. reflexivity.
  - reflexivity.
Defined.

(** C10.  [unify_name] returns its input unchanged or one of the display names
    of the rule table, and nothing else. *)
Theorem unify_name_range (name : string) :
  unify_name name = name \/ In (unify_name name) display_names.
Proof.
  destruct (unify_name_cases name) as [[_ H] | [(_ & _ & H) | [_ H]]];
    [left; exact H | left; exact H | right].
  apply scan_rules_some in H. destruct H as (ps & Hin & _).
  apply (in_map snd _ _ Hin).
Qed.

(** C9.  [unify_name] is idempotent, and every display name of the rule table
    is mapped to itself. *)
Theorem unify_name_idempotent :
  (forall name, unify_name (unify_name name) = unify_name name)
  /\ Forall (fun r : rule => unify_name (snd r) = snd r) unification_map.
Proof.
  split.
  - intros name.
    destruct (unify_name_cases name) as [[_ H] | [(_ & _ & H) | [_ H]]].
    + now rewrite H.
    + now rewrite H.
    + apply scan_rules_some in H. destruct H as (ps & Hin & _).
      apply display_names_fixed. apply (in_map snd _ _ Hin).
  - apply Forall_forall. intros r Hr.
    apply display_names_fixed. now apply in_map.
Qed.

End UnifierFacts.

(* ------------------------------------------------------------------ *)
(** * Facts about the data-frame operations *)
(* ------------------------------------------------------------------ *)

Module FramesFacts.
Import Frames.
Local Open Scope Z_scope.

(** ** Filters *)

Lemma filter_all {A : Type} (p : A -> bool) (l : list A) :
  Forall (fun x => p x = true) l -> filter p l = l.
Proof.
  induction 1 as [|x l Hx _ IH]; simpl; [reflexivity|].
  now rewrite Hx, IH.
Qed.

Lemma filter_none {A : Type} (p : A -> bool) (l : list A) :
  Forall (fun x => p x = false) l -> filter p l = [].
Proof.
  induction 1 as [|x l Hx _ IH]; simpl; [reflexivity|].
  now rewrite Hx.
Qed.



Lemma NoDup_map_injective {A B : Type} (f : A -> B) (l : list A) :
  (forall x y, In x l -> In y l -> f x = f y -> x = y) ->
  NoDup l -> NoDup (map f l).
Proof.
  induction l as [|x l IH]; simpl; intros Hinj Hnd; [constructor|].
  inversion Hnd as [|? ? Hx Hl]; subst. constructor.
  - rewrite in_map_iff. intros (y & Hxy & Hy).
    apply Hx. rewrite (Hinj x y); auto.
  - apply IH; auto.
Qed.

(** ** [range] *)

Lemma range_length a b : List.length (range a b) = Z.to_nat (b - a).
Proof. unfold range. now rewrite length_map, length_seq. Qed.

Lemma In_range a b x : In x (range a b) <-> a <= x < b.
Proof.
  unfold range. rewrite in_map_iff. split.
  - intros (i & <- & Hi). apply in_seq in Hi. lia.
  - intros H. exists (Z.to_nat (x - a)). split; [lia|].
    apply in_seq. lia.
Qed.

Lemma NoDup_range a b : NoDup (range a b).
Proof.
  unfold range. apply NoDup_map_injective; [|apply seq_NoDup].
  intros i j _ _ H. lia.
Qed.

(** ** [column_sum], [column_min], [column_max] *)


Lemma column_sum_perm l1 l2 :
  Permutation l1 l2 -> column_sum l1 = column_sum l2.
Proof.
  unfold column_sum. induction 1; simpl; lia.
Qed.

Lemma fold_min_spec rest x :
  (In (fold_left Z.min rest x) (x :: rest))
  /\ (forall y, In y (x :: rest) -> fold_left Z.min rest x <= y).
Proof.
  revert x. induction rest as [|z rest IH]; intros x; simpl.
  - split; [auto | intros y [<- | []]; lia].
  - destruct (IH (Z.min x z)) as [Hin Hle]. split.
    + destruct Hin as [Hin | Hin]; [|auto].
      rewrite <- Hin. destruct (Z.min_spec x z) as [[_ ->] | [_ ->]]; auto.
    + intros y Hy.
      assert (fold_left Z.min rest (Z.min x z) <= Z.min x z) as H0
          by (apply Hle; left; reflexivity).
      destruct Hy as [<- | [<- | Hy]]; [lia | lia |].
      apply Hle. right. exact Hy.
Qed.

Lemma fold_max_spec rest x :
  (In (fold_left Z.max rest x) (x :: rest))
  /\ (forall y, In y (x :: rest) -> y <= fold_left Z.max rest x).
Proof.
  revert x. induction rest as [|z rest IH]; intros x; simpl.
  - split; [auto | intros y [<- | []]; lia].
  - destruct (IH (Z.max x z)) as [Hin Hle]. split.
    + destruct Hin as [Hin | Hin]; [|auto].
      rewrite <- Hin. destruct (Z.max_spec x z) as [[_ ->] | [_ ->]]; auto.
    + intros y Hy.
      assert (Z.max x z <= fold_left Z.max rest (Z.max x z)) as H0
          by (apply Hle; left; reflexivity).
      destruct Hy as [<- | [<- | Hy]]; [lia | lia |].
      apply Hle. right. exact Hy.
Qed.

Lemma column_min_spec column m :
  column_min column = Some m ->
  In m column /\ forall y, In y column -> m <= y.
Proof.
  destruct column as [|x rest]; simpl; [discriminate|].
  intros [= <-]. apply fold_min_spec.
Qed.

Lemma column_max_spec column m :
  column_max column = Some m ->
  In m column /\ forall y, In y column -> y <= m.
Proof.
  destruct column as [|x rest]; simpl; [discriminate|].
  intros [= <-]. apply fold_max_spec.
Qed.

Lemma column_max_some column :
  column <> [] -> exists m, column_max column = Some m.
Proof. destruct column; [congruence | simpl; eauto]. Qed.

Lemma column_min_some column :
  column <> [] -> exists m, column_min column = Some m.
Proof. destruct column; [congruence | simpl; eauto]. Qed.

(** ** [unique] *)

Lemma In_unique column x : In x (unique column) <-> In x column.
Proof.
  induction column as [|y column IH]; simpl; [tauto|].
  rewrite filter_In, IH, negb_true_iff, String.eqb_neq.
  split.
  - intros [H | [H _]]; auto.
  - intros [H | H]; [auto|].
    destruct (string_dec x y) as [-> | Hne]; [left | right]; auto.
Qed.

Lemma NoDup_unique column : NoDup (unique column).
Proof.
  induction column as [|y column IH]; simpl; constructor.
  - rewrite filter_In, negb_true_iff, String.eqb_neq. tauto.
  - now apply NoDup_filter.
Qed.

(** ** [group_keys] over an ordered type of keys *)

Section GroupKeysFacts.
Context {K : Type} (compare : K -> K -> comparison).
Hypothesis compare_eq : forall x y, compare x y = Eq <-> x = y.
Hypothesis compare_antisym : forall x y, compare y x = CompOpp (compare x y).
Hypothesis compare_trans :
  forall x y z, compare x y = Lt -> compare y z = Lt -> compare x z = Lt.

Local Abbreviation lt := (fun x y : K => compare x y = Lt).

Lemma In_insert_key k keys x :
  In x (insert_key compare k keys) <-> x = k \/ In x keys.
Proof.
  induction keys as [|k' keys IH]; simpl.
  - intuition.
  - destruct (compare k k') eqn:E; simpl.
    + apply compare_eq in E. subst k'. intuition.
    + intuition.
    + rewrite IH. intuition.
Qed.

Lemma insert_key_sorted k keys :
  StronglySorted lt keys -> StronglySorted lt (insert_key compare k keys).
Proof.
  induction 1 as [|k' keys Hs IH Hall]; simpl.
  - repeat constructor.
  - destruct (compare k k') eqn:E.
    + now constructor.
    + constructor; [now constructor|]. constructor; [exact E|].
      rewrite Forall_forall in *. intros z Hz.
      apply (compare_trans k k' z E). now apply Hall.
    + constructor; [exact IH|].
      rewrite Forall_forall in *. intros z Hz.
      apply In_insert_key in Hz. destruct Hz as [-> | Hz].
      * simpl. rewrite compare_antisym, E. reflexivity.
      * now apply Hall.
Qed.

Lemma In_group_keys keys x : In x (group_keys compare keys) <-> In x keys.
Proof.
  induction keys as [|k keys IH]; simpl; [tauto|].
  rewrite In_insert_key, IH. intuition.
Qed.

Lemma group_keys_sorted keys : StronglySorted lt (group_keys compare keys).
Proof.
  induction keys as [|k keys IH]; simpl; [constructor|].
  now apply insert_key_sorted.
Qed.

Lemma NoDup_group_keys keys : NoDup (group_keys compare keys).
Proof.
  generalize (group_keys_sorted keys).
  induction 1 as [|k l Hs IH Hall]; constructor; [|exact IH].
  intros Hin. rewrite Forall_forall in Hall. specialize (Hall k Hin).
  simpl in Hall. rewrite (proj2 (compare_eq k k) eq_refl) in Hall.
  discriminate.
Qed.
End GroupKeysFacts.

(** The order of dates. *)
Lemma In_date_keys dates d : In d (group_keys Z.compare dates) <-> In d dates.
Proof. apply In_group_keys. apply Z.compare_eq_iff. Qed.

Lemma NoDup_date_keys dates : NoDup (group_keys Z.compare dates).
Proof.
  apply NoDup_group_keys.
  - apply Z.compare_eq_iff.
  - intros x y. apply Z.compare_antisym.
  - intros x y z. rewrite !Z.compare_lt_iff. lia.
Qed.

(** The order of names: [String.compare] is a strict total order. *)
Lemma string_compare_refl s : String.compare s s = Eq.
Proof.
  induction s as [|c s IH]; simpl; [reflexivity|].
  unfold Ascii.compare. now rewrite N.compare_refl.
Qed.

Lemma string_compare_trans s1 s2 s3 :
  String.compare s1 s2 = Lt -> String.compare s2 s3 = Lt ->
  String.compare s1 s3 = Lt.
Proof.
  revert s2 s3.
  induction s1 as [|c1 s1 IH]; intros [|c2 s2] [|c3 s3]; simpl;
    try discriminate; try reflexivity.
  unfold Ascii.compare.
  destruct (N.compare_spec (N_of_ascii c1) (N_of_ascii c2)) as [E12|L12|G12];
    destruct (N.compare_spec (N_of_ascii c2) (N_of_ascii c3)) as [E23|L23|G23];
    try discriminate; intros H12 H23.
  - rewrite E12, E23, N.compare_refl. now apply (IH s2).
  - now rewrite E12, (proj2 (N.compare_lt_iff _ _) L23).
  - now rewrite <- E23, (proj2 (N.compare_lt_iff _ _) L12).
  - assert (N_of_ascii c1 < N_of_ascii c3)%N as L13 by lia.
    now rewrite (proj2 (N.compare_lt_iff _ _) L13).
Qed.

(** The order of the keys [(Date, UnifiedUser)]. *)
Lemma key_compare_eq k1 k2 : key_compare k1 k2 = Eq <-> k1 = k2.
Proof.
  destruct k1 as [d1 u1], k2 as [d2 u2]. unfold key_compare; simpl. split.
  - destruct (Z.compare_spec d1 d2) as [Ed | Ld | Gd]; try discriminate.
    intros Hu. apply String.compare_eq_iff in Hu. congruence.
  - intros [= -> ->]. rewrite Z.compare_refl. apply string_compare_refl.
Qed.

Lemma key_compare_antisym k1 k2 :
  key_compare k2 k1 = CompOpp (key_compare k1 k2).
Proof.
  destruct k1 as [d1 u1], k2 as [d2 u2]. unfold key_compare; simpl.
  rewrite (Z.compare_antisym d1 d2).
  destruct (d1 ?= d2); simpl; try reflexivity.
  apply String.compare_antisym.
Qed.

Lemma key_compare_trans k1 k2 k3 :
  key_compare k1 k2 = Lt -> key_compare k2 k3 = Lt -> key_compare k1 k3 = Lt.
Proof.
  destruct k1 as [d1 u1], k2 as [d2 u2], k3 as [d3 u3].
  unfold key_compare; simpl.
  destruct (Z.compare_spec d1 d2) as [E12|L12|G12];
    destruct (Z.compare_spec d2 d3) as [E23|L23|G23];
    try discriminate; intros H12 H23.
  - subst. rewrite Z.compare_refl. now apply (string_compare_trans u1 u2).
  - subst. now rewrite (proj2 (Z.compare_lt_iff _ _) L23).
  - subst. now rewrite (proj2 (Z.compare_lt_iff _ _) L12).
  - assert (d1 < d3) as L by lia. now rewrite (proj2 (Z.compare_lt_iff _ _) L).
Qed.

Lemma In_key_keys keys k : In k (group_keys key_compare keys) <-> In k keys.
Proof. apply In_group_keys. apply key_compare_eq. Qed.

Lemma NoDup_key_keys keys : NoDup (group_keys key_compare keys).
Proof.
  apply NoDup_group_keys.
  - apply key_compare_eq.
  - intros x y. apply key_compare_antisym.
  - apply key_compare_trans.
Qed.

Lemma key_eqb_eq k1 k2 : key_eqb k1 k2 = true <-> k1 = k2.
Proof.
  destruct k1 as [d1 u1], k2 as [d2 u2]. unfold key_eqb; simpl.
  rewrite andb_true_iff, Z.eqb_eq, String.eqb_eq.
  split; [intros [-> ->]; reflexivity | intros [= -> ->]; auto].
Qed.

Lemma key_eqb_refl k : key_eqb k k = true.
Proof. now apply key_eqb_eq. Qed.

Lemma key_eqb_neq k1 k2 : key_eqb k1 k2 = false <-> k1 <> k2.
Proof.
  rewrite <- key_eqb_eq. destruct (key_eqb k1 k2); split; congruence.
Qed.

(** ** [groupby_date_apply] *)

(** The rows a date contributes to the result of [groupby(...).apply(f)] are
    [f] of the rows of that date, when [f] keeps the date of its rows. *)
Lemma groupby_date_apply_on_date {A B : Type}
    (date_of : A -> Z) (date_of' : B -> Z) (f : list A -> list B)
    (df : list A) (D : Z) :
  (forall group d, Forall (fun r => date_of r = d) group ->
                   Forall (fun r => date_of' r = d) (f group)) ->
  f [] = [] ->
  filter (fun r => date_of' r =? D) (groupby_date_apply date_of f df)
  = f (filter (fun r => date_of r =? D) df).
Proof.
  intros Hkeep Hnil. unfold groupby_date_apply.
  set (group := fun d => filter (fun r => date_of r =? d) df).
  change (filter (fun r => date_of r =? D) df) with (group D).
  change (fun d => f (filter (fun r => date_of r =? d) df))
    with (fun d => f (group d)).
  assert (forall d, Forall (fun r => date_of' r = d) (f (group d))) as Hdate.
  { intros d. apply Hkeep. apply Forall_forall. intros r Hr.
    apply filter_In in Hr. lia. }
  assert (forall keys, NoDup keys ->
            filter (fun r => date_of' r =? D) (flat_map (fun d => f (group d)) keys)
            = if in_dec Z.eq_dec D keys then f (group D) else []) as Hgen.
  { induction 1 as [|d keys Hd Hnd IH]; simpl; [reflexivity|].
    rewrite filter_app, IH.
    destruct (Z.eq_dec d D) as [-> | Hne].
    - rewrite filter_all.
      + destruct (in_dec Z.eq_dec D keys); [contradiction | apply app_nil_r].
      + eapply Forall_impl; [|apply Hdate]. simpl. intros r Hr. lia.
    - rewrite filter_none.
      + simpl. destruct (in_dec Z.eq_dec D keys); reflexivity.
      + eapply Forall_impl; [|apply (Hdate d)]. simpl. intros r Hr. lia. }
  rewrite Hgen by apply NoDup_date_keys.
  destruct (in_dec Z.eq_dec D (group_keys Z.compare (map date_of df)))
    as [Hin | Hout]; [reflexivity|].
  assert (group D = []) as ->; [|now rewrite Hnil].
  unfold group. apply filter_none. apply Forall_forall. intros r Hr.
  apply Z.eqb_neq. intros Heq. apply Hout.
  apply In_date_keys. rewrite <- Heq. now apply in_map.
Qed.

End FramesFacts.

(* ------------------------------------------------------------------ *)
(** * Facts about the pipeline *)
(* ------------------------------------------------------------------ *)

Module PipelineFacts.
Import Unifier Frames Pipeline FramesFacts.
Local Open Scope Z_scope.
Local Open Scope list_scope.

(** ** The two sorts meet the contract of [sort_values] *)

Lemma insert_desc_perm r sorted : Permutation (r :: sorted) (insert_desc r sorted).
Proof.
  induction sorted as [|r' sorted IH]; simpl; [reflexivity|].
  destruct (g_Influence r' <? g_Influence r); [reflexivity|].
  rewrite perm_swap. now constructor.
Qed.

Lemma insert_desc_sorted r sorted :
  StronglySorted descending sorted ->
  StronglySorted descending (insert_desc r sorted).
Proof.
  induction 1 as [|r' sorted Hs IH Hall]; simpl.
  - repeat constructor.
  - destruct (Z.ltb_spec (g_Influence r') (g_Influence r)) as [Hlt | Hge].
    + constructor; [now constructor|]. constructor.
      * unfold descending. lia.
      * eapply Forall_impl; [|exact Hall]. unfold descending. simpl. lia.
    + constructor; [exact IH|].
      apply (Permutation_Forall (insert_desc_perm r sorted)).
      constructor; [exact Hge | exact Hall].
Qed.

Lemma fold_insert_desc group acc :
  let sorted := fold_left (fun sorted r => insert_desc r sorted) group acc in
  Permutation (group ++ acc) sorted
  /\ (StronglySorted descending acc -> StronglySorted descending sorted).
Proof.
  revert acc. induction group as [|r group IH]; intros acc; simpl.
  - split; [reflexivity | auto].
  - destruct (IH (insert_desc r acc)) as [Hperm Hsorted]. split.
    + rewrite <- Hperm. rewrite <- insert_desc_perm.
      apply Permutation_middle.
    + intros Hacc. apply Hsorted. now apply insert_desc_sorted.
Qed.

Lemma sort_values_keep_ties_spec : sort_values_spec sort_values_keep_ties.
Proof.
  intros group. unfold sort_values_keep_ties.
  destruct (fold_insert_desc group []) as [Hperm Hsorted]. split.
  - now rewrite app_nil_r in Hperm.
  - apply Hsorted. constructor.
Qed.

(** ** [compute_daily_ranks] *)

Lemma map_fst_combine_le {A B : Type} (l : list A) (l' : list B) :
  (List.length l <= List.length l')%nat -> map fst (combine l l') = l.
Proof.
  revert l'. induction l as [|x l IH]; intros [|y l']; simpl; intros H;
    try reflexivity; [lia|].
  rewrite IH by lia. reflexivity.
Qed.

Lemma map_snd_combine_le {A B : Type} (l : list A) (l' : list B) :
  (List.length l' <= List.length l)%nat -> map snd (combine l l') = l'.
Proof.
  revert l'. induction l as [|x l IH]; intros [|y l']; simpl; intros H;
    try reflexivity; [lia|].
  rewrite IH by lia. reflexivity.
Qed.

Lemma range_from_1_length (n : nat) :
  List.length (range 1 (Z.of_nat n + 1)) = n.
Proof. rewrite range_length. lia. Qed.

Section Ranker.
Variable sort_values : list GroupedRow -> list GroupedRow.
Hypothesis sort_values_ok : sort_values_spec sort_values.

Lemma sort_values_length group :
  List.length (sort_values group) = List.length group.
Proof.
  symmetry. apply Permutation_length. apply sort_values_ok.
Qed.

Lemma sort_values_nil : sort_values [] = [].
Proof.
  apply Permutation_nil. apply sort_values_ok.
Qed.

(** Without their ranks, the ranked rows are the sorted group. *)
Lemma compute_daily_ranks_rows group :
  map unrank (compute_daily_ranks sort_values group) = sort_values group.
Proof.
  unfold compute_daily_ranks. rewrite map_map.
  set (ranks := range 1 (Z.of_nat (List.length (sort_values group)) + 1)).
  transitivity (map fst (combine (sort_values group) ranks)).
  - apply map_ext. intros [[d u v] k]. reflexivity.
  - apply map_fst_combine_le. unfold ranks.
    rewrite range_from_1_length. lia.
Qed.

(** The ranks are [1, 2, ..., len(group)], in the order of the rows. *)
Lemma compute_daily_ranks_ranks group :
  map Rank (compute_daily_ranks sort_values group)
  = range 1 (Z.of_nat (List.length group) + 1).
Proof.
  unfold compute_daily_ranks. rewrite map_map. simpl.
  rewrite <- (sort_values_length group).
  set (ranks := range 1 (Z.of_nat (List.length (sort_values group)) + 1)).
  transitivity (map snd (combine (sort_values group) ranks)).
  - apply map_ext. intros [r k]. reflexivity.
  - apply map_snd_combine_le. unfold ranks.
    rewrite range_from_1_length. lia.
Qed.

Lemma compute_daily_ranks_length group :
  List.length (compute_daily_ranks sort_values group) = List.length group.
Proof.
  rewrite <- (length_map Rank), compute_daily_ranks_ranks.
  apply range_from_1_length.
Qed.

Lemma compute_daily_ranks_keeps_date group d :
  Forall (fun r => g_Date r = d) group ->
  Forall (fun r => Date r = d) (compute_daily_ranks sort_values group).
Proof.
  intros Hgroup.
  assert (Forall (fun r => g_Date r = d) (sort_values group)) as Hsorted
      by (apply (Permutation_Forall (proj1 (sort_values_ok group))), Hgroup).
  rewrite <- compute_daily_ranks_rows in Hsorted.
  rewrite Forall_map in Hsorted. exact Hsorted.
Qed.

(** The ranked rows of one date are the ranked group of that date. *)
Lemma load_and_preprocess_data_on_date csv D :
  filter (fun r => Date r =? D) (load_and_preprocess_data sort_values csv)
  = compute_daily_ranks sort_values
      (filter (fun r => g_Date r =? D) (groupby_sum (apply_unify_name csv))).
Proof.
  unfold load_and_preprocess_data.
  apply (groupby_date_apply_on_date g_Date Date).
  - apply compute_daily_ranks_keeps_date.
  - unfold compute_daily_ranks. now rewrite sort_values_nil.
Qed.
End Ranker.

(** ** A stable sort keeps the order of ties *)

Lemma filter_insert_desc (p : GroupedRow -> bool) v r sorted :
  (forall x, p x = true <-> g_Influence x = v) ->
  StronglySorted descending sorted ->
  filter p (insert_desc r sorted) = filter p sorted ++ filter p [r].
Proof.
  intros Hp. induction 1 as [|r' sorted Hs IH Hall]; [reflexivity|].
  cbn [insert_desc].
  destruct (Z.ltb_spec (g_Influence r') (g_Influence r)) as [Hlt | Hge].
  - cbn [filter]. destruct (p r) eqn:Hr; [|now rewrite app_nil_r].
    apply Hp in Hr.
    assert (filter p (r' :: sorted) = []) as Hnone.
    { apply filter_none. constructor.
      - destruct (p r') eqn:Hr'; [|reflexivity]. apply Hp in Hr'. lia.
      - eapply Forall_impl; [|exact Hall]. unfold descending. intros x Hx.
        destruct (p x) eqn:Hpx; [|reflexivity]. apply Hp in Hpx. lia. }
    cbn [filter] in Hnone. rewrite Hnone. reflexivity.
  - cbn [filter]. rewrite IH. destruct (p r'); reflexivity.
Qed.

Lemma filter_fold_insert_desc (p : GroupedRow -> bool) v group acc :
  (forall x, p x = true <-> g_Influence x = v) ->
  StronglySorted descending acc ->
  filter p (fold_left (fun sorted r => insert_desc r sorted) group acc)
  = filter p acc ++ filter p group.
Proof.
  intros Hp. revert acc.
  induction group as [|r group IH]; intros acc Hacc; simpl fold_left.
  - simpl. now rewrite app_nil_r.
  - rewrite IH by now apply insert_desc_sorted.
    rewrite (filter_insert_desc p v r acc Hp Hacc), <- app_assoc.
    f_equal. simpl. destruct (p r); reflexivity.
Qed.

(** With the insertion sort that keeps ties in place, rows of equal influence
    leave the ranker in the order in which they entered it. *)
Lemma sort_values_keep_ties_keeps_tie_order :
  keeps_tie_order sort_values_keep_ties.
Proof.
  intros csv D v.
  rewrite (load_and_preprocess_data_on_date
             sort_values_keep_ties sort_values_keep_ties_spec).
  rewrite compute_daily_ranks_rows. unfold sort_values_keep_ties.
  rewrite (filter_fold_insert_desc _ v); [reflexivity | | constructor].
  intros x. apply Z.eqb_eq.
Qed.

(** ** [groupby_sum] *)

Lemma groupby_sum_keys df :
  map g_key (groupby_sum df) = group_keys key_compare (map u_key df).
Proof.
  unfold groupby_sum. rewrite map_map. simpl.
  rewrite <- (map_id (group_keys key_compare (map u_key df))) at 2.
  apply map_ext. intros [d u]. reflexivity.
Qed.

(** The grouped rows of one date, from the group keys of that date. *)
Lemma groupby_sum_on_date df D :
  filter (fun r => g_Date r =? D) (groupby_sum df)
  = map (fun k => mkGrouped (fst k) (snd k)
                    (column_sum (map u_Influence
                                   (filter (fun r => key_eqb (u_key r) k) df))))
        (filter (fun k => fst k =? D) (group_keys key_compare (map u_key df))).
Proof.
  unfold groupby_sum. now rewrite filter_map_swap.
Qed.

Lemma apply_unify_name_on_date {A : Type} (f : UnifiedRecord -> A)
    (g : RawRecord -> A) csv D :
  (forall r, f (mkUnified (raw_Date r) (raw_User r) (raw_Influence r)
                          (unify_name (raw_User r))) = g r) ->
  map f (filter (fun r => u_Date r =? D) (apply_unify_name csv))
  = map g (filter (fun r => raw_Date r =? D) csv).
Proof.
  intros Hfg. unfold apply_unify_name.
  rewrite filter_map_swap, map_map. simpl. apply map_ext. exact Hfg.
Qed.

(** The names of the group keys of a date are the distinct unified names of
    the records of that date. *)
Lemma keys_on_date_count csv D :
  List.length (filter (fun k => fst k =? D)
                 (group_keys key_compare (map u_key (apply_unify_name csv))))
  = List.length (unique (map (fun r => unify_name (raw_User r))
                           (filter (fun r => raw_Date r =? D) csv))).
Proof.
  rewrite <- (length_map snd (filter (fun k => fst k =? D) _)).
  assert (forall d u,
            In (d, u) (group_keys key_compare (map u_key (apply_unify_name csv)))
            <-> exists r, In r csv /\ raw_Date r = d
                          /\ unify_name (raw_User r) = u) as Hkeys.
  { intros d u. rewrite In_key_keys. unfold apply_unify_name.
    rewrite map_map, in_map_iff. unfold u_key. simpl. split.
    - intros (r & [= Hd Hu] & Hin). eauto.
    - intros (r & Hin & Hd & Hu). exists r. split; [congruence | exact Hin]. }
  apply Permutation_length. apply NoDup_Permutation.
  - apply NoDup_map_injective.
    + intros [d1 u1] [d2 u2] H1 H2. simpl.
      apply filter_In in H1, H2. simpl in H1, H2. intros ->.
      f_equal. lia.
    + apply NoDup_filter. apply NoDup_key_keys.
  - apply NoDup_unique.
  - intros u. rewrite In_unique, !in_map_iff. split.
    + intros ([d u'] & Hu & Hk). simpl in Hu. subst u'.
      apply filter_In in Hk. destruct Hk as [Hk Hd]. simpl in Hd.
      apply Hkeys in Hk. destruct Hk as (r & Hin & Hd' & Hu').
      exists r. split; [exact Hu'|].
      apply filter_In. split; [exact Hin | lia].
    + intros (r & Hu & Hr). apply filter_In in Hr. destruct Hr as [Hin Hd].
      exists (D, u). split; [reflexivity|].
      apply filter_In. split; [|simpl; lia].
      apply Hkeys. exists r. repeat split; [exact Hin | lia | exact Hu].
Qed.

(** Summing group by group is summing row by row. *)
Lemma column_sum_map_add {A : Type} (a b : A -> Z) (l : list A) :
  column_sum (map (fun x => a x + b x) l)
  = column_sum (map a l) + column_sum (map b l).
Proof.
  unfold column_sum. induction l as [|x l IH]; simpl; lia.
Qed.

Lemma column_sum_indicator (k0 : key) (v : Z) (keys : list key) :
  NoDup keys ->
  column_sum (map (fun k => if key_eqb k0 k then v else 0) keys)
  = if in_dec key_eq_dec k0 keys then v else 0.
Proof.
  intros Hnd. induction Hnd as [|k keys Hk Hnd IH]; [reflexivity|].
  simpl map. unfold column_sum in *. simpl fold_right. rewrite IH.
  destruct (key_eqb k0 k) eqn:E.
  - apply key_eqb_eq in E. subst k0.
    destruct (in_dec key_eq_dec k keys) as [Hin | _]; [contradiction|].
    destruct (in_dec key_eq_dec k (k :: keys)) as [_ | Hout]; [lia|].
    exfalso. apply Hout. now left.
  - apply key_eqb_neq in E.
    destruct (in_dec key_eq_dec k0 keys) as [Hin | Hout];
      destruct (in_dec key_eq_dec k0 (k :: keys)) as [Hin' | Hout'];
      try lia.
    + exfalso. apply Hout'. now right.
    + exfalso. destruct Hin' as [Heq | Hin']; [congruence | contradiction].
Qed.

Lemma column_sum_map_zero {A : Type} (l : list A) :
  column_sum (map (fun _ => 0) l) = 0.
Proof. unfold column_sum. induction l; simpl; lia. Qed.

Lemma groupby_sum_conserves (df : list UnifiedRecord) (keys : list key) D :
  NoDup keys ->
  (forall r, In r df -> In (u_key r) keys) ->
  column_sum
    (map (fun k => column_sum
                     (map u_Influence
                        (filter (fun r => key_eqb (u_key r) k) df)))
         (filter (fun k => fst k =? D) keys))
  = column_sum (map u_Influence (filter (fun r => u_Date r =? D) df)).
Proof.
  intros Hnd. induction df as [|r df IH]; intros Hcover.
  - simpl. apply column_sum_map_zero.
  - rewrite (map_ext _
      (fun k => (if key_eqb (u_key r) k then u_Influence r else 0)
                + column_sum
                    (map u_Influence
                       (filter (fun r' => key_eqb (u_key r') k) df)))).
    2:{ intros k. simpl. destruct (key_eqb (u_key r) k); reflexivity. }
    rewrite column_sum_map_add, IH by (intros r' Hr'; apply Hcover; now right).
    rewrite column_sum_indicator by now apply NoDup_filter.
    simpl filter.
    destruct (in_dec key_eq_dec (u_key r) (filter (fun k => fst k =? D) keys))
      as [Hin | Hout].
    + apply filter_In in Hin. destruct Hin as [_ Hd]. simpl in Hd.
      rewrite Hd. reflexivity.
    + destruct (Z.eqb_spec (u_Date r) D) as [Hd | Hd]; [|reflexivity].
      exfalso. apply Hout. apply filter_In. split.
      * apply Hcover. now left.
      * simpl. lia.
Qed.

Lemma StronglySorted_map {A B : Type} (R : B -> B -> Prop) (f : A -> B)
    (l : list A) :
  StronglySorted R (map f l) -> StronglySorted (fun a b => R (f a) (f b)) l.
Proof.
  induction l as [|x l IH]; simpl; intros H; [constructor|].
  inversion H as [|? ? Hs Hall]; subst. constructor; [now apply IH|].
  now rewrite Forall_map in Hall.
Qed.

(** ** The claims about aggregation and ranking *)

(** The example of the specification: two spellings of "Sullivan" merge
    into one row of 15, ranked below "Deb" with 20. *)
Example aggregated_example :
  load_and_preprocess_data sort_values_keep_ties
    [mkRaw 1 "Sullivan Jr." 10; mkRaw 1 "sullivan" 5;
     mkRaw 1 "Deb H." 20]%string
  = [mkRow 1 "Deb" 20 1; mkRow 1 "Sullivan" 15 2]%string.
Proof. vm_compute. reflexivity. Qed.

(** X18.  Within each date partition of the aggregated output the ranker
    keeps the rows of the partition, puts them in descending order of total
    influence and assigns the ranks 1, 2, 3, ... in that order, whatever sort
    meeting the contract is used. *)
Theorem daily_ranks_follow_descending_influence
    (sort_values : list GroupedRow -> list GroupedRow)
    (sort_values_ok : sort_values_spec sort_values)
    (csv : list RawRecord) (D : Z) :
  let group :=
    filter (fun r => g_Date r =? D) (groupby_sum (apply_unify_name csv)) in
  let ranked :=
    filter (fun r => Date r =? D) (load_and_preprocess_data sort_values csv) in
  Permutation group (map unrank ranked)
  /\ StronglySorted
       (fun a b => Political_Influence b <= Political_Influence a) ranked
  /\ map Rank ranked = range 1 (Z.of_nat (List.length ranked) + 1).
Proof.
  intros group ranked. unfold ranked, group.
  rewrite (load_and_preprocess_data_on_date sort_values sort_values_ok).
  rewrite compute_daily_ranks_rows, compute_daily_ranks_ranks,
    compute_daily_ranks_length by assumption.
  split; [apply sort_values_ok | split; [|reflexivity]].
  apply (StronglySorted_map descending unrank).
  rewrite compute_daily_ranks_rows by assumption. apply sort_values_ok.
Qed.

Lemma daily_ranks_follow_descending_influence_witness :
  let csv := [mkRaw 1 "Sullivan Jr." 10; mkRaw 1 "sullivan" 5;
              mkRaw 1 "Deb H." 20]%string in
  let ranked :=
    filter (fun r => Date r =? 1)
      (load_and_preprocess_data sort_values_keep_ties csv) in
  Permutation
    (filter (fun r => g_Date r =? 1) (groupby_sum (apply_unify_name csv)))
    (map unrank ranked)
  /\ StronglySorted
       (fun a b => Political_Influence b <= Political_Influence a) ranked
  /\ map Rank ranked = range 1 (Z.of_nat (List.length ranked) + 1).
Proof.
  apply (daily_ranks_follow_descending_influence
           sort_values_keep_ties sort_values_keep_ties_spec).
Defined.

(** C5.  For every date [D], the ranks of the rows of [D] in the aggregated
    output are a permutation of [1..K], where [K] is the number of distinct
    canonical users with a raw record on [D]. *)
Theorem ranks_on_date_permute_1_to_K
    (sort_values : list GroupedRow -> list GroupedRow)
    (sort_values_ok : sort_values_spec sort_values)
    (csv : list RawRecord) (D : Z) :
  let K := List.length
             (unique (map (fun r => unify_name (raw_User r))
                        (filter (fun r => raw_Date r =? D) csv))) in
  Permutation
    (map Rank (filter (fun r => Date r =? D)
                 (load_and_preprocess_data sort_values csv)))
    (range 1 (Z.of_nat K + 1)).
Proof.
  intros K. unfold K.
  rewrite (load_and_preprocess_data_on_date sort_values sort_values_ok).
  rewrite compute_daily_ranks_ranks by assumption.
  rewrite groupby_sum_on_date, length_map, keys_on_date_count.
  reflexivity.
Qed.

Lemma ranks_on_date_permute_1_to_K_witness :
  let csv := [mkRaw 1 "Sullivan Jr." 10; mkRaw 1 "sullivan" 5;
              mkRaw 1 "Deb H." 20; mkRaw 2 "Zed" 1]%string in
  Permutation
    (map Rank (filter (fun r => Date r =? 1)
                 (load_and_preprocess_data sort_values_keep_ties csv)))
    (range 1 (2 + 1)).
Proof.
  apply (ranks_on_date_permute_1_to_K
           sort_values_keep_ties sort_values_keep_ties_spec
           [mkRaw 1 "Sullivan Jr." 10; mkRaw 1 "sullivan" 5;
            mkRaw 1 "Deb H." 20; mkRaw 2 "Zed" 1]%string 1).
Defined.

(** ** [merge_left] and [fill_missing] *)

Lemma NoDup_list_prod {A B : Type} (l : list A) (l' : list B) :
  NoDup l -> NoDup l' -> NoDup (list_prod l l').
Proof.
  intros Hl Hl'. induction Hl as [|x l Hx Hl IH]; simpl; [constructor|].
  apply NoDup_app; [|exact IH|].
  - apply NoDup_map_injective; [|exact Hl']. intros a b _ _ [= ->]. reflexivity.
  - intros [a b] Hab Hprod. apply in_map_iff in Hab.
    destruct Hab as (b' & [= <- <-] & _).
    apply in_prod_iff in Hprod. tauto.
Qed.

Lemma filter_refine {A : Type} (p q : A -> bool) (l : list A) :
  (forall x, p x = true -> q x = true) ->
  filter p (filter q l) = filter p l.
Proof.
  intros Hpq. induction l as [|x l IH]; simpl; [reflexivity|].
  destruct (q x) eqn:Hq; simpl.
  - now rewrite IH.
  - destruct (p x) eqn:Hp; [|exact IH].
    rewrite (Hpq x Hp) in Hq. discriminate.
Qed.

Lemma count_in_NoDup (k : key) (keys : list key) :
  NoDup keys ->
  List.length (filter (fun k' => key_eqb k' k) keys)
  = if in_dec key_eq_dec k keys then 1%nat else 0%nat.
Proof.
  induction 1 as [|k' keys Hk' Hnd IH]; [reflexivity|].
  simpl filter. destruct (key_eqb k' k) eqn:E.
  - apply key_eqb_eq in E. subst k'. simpl List.length. rewrite IH.
    destruct (in_dec key_eq_dec k keys) as [Hin | _]; [contradiction|].
    destruct (in_dec key_eq_dec k (k :: keys)) as [_ | Hout]; [reflexivity|].
    exfalso. apply Hout. now left.
  - apply key_eqb_neq in E. rewrite IH.
    destruct (in_dec key_eq_dec k keys) as [Hin | Hout];
      destruct (in_dec key_eq_dec k (k' :: keys)) as [Hin' | Hout'];
      try reflexivity.
    + exfalso. apply Hout'. now right.
    + exfalso. destruct Hin' as [Heq | Hin']; [congruence | contradiction].
Qed.

Lemma In_dropna column x : In x (dropna column) <-> In (Some x) column.
Proof.
  induction column as [|[y|] column IH]; simpl; [tauto | |].
  - rewrite IH. split; intros [H | H]; auto; left; congruence.
  - rewrite IH. split; [auto | intros [H | H]; [discriminate | exact H]].
Qed.

(** With one row for each key, the rows under a key are none or one. *)
Lemma rows_under_key df k :
  one_row_per_key df ->
  filter (fun r => key_eqb (row_key r) k) df = []
  \/ exists r, In r df /\ row_key r = k
               /\ filter (fun r => key_eqb (row_key r) k) df = [r].
Proof.
  unfold one_row_per_key.
  induction df as [|r df IH]; simpl; intros Hnd; [now left|].
  inversion Hnd as [|? ? Hr Hnd']; subst.
  destruct (key_eqb (row_key r) k) eqn:E.
  - right. exists r. apply key_eqb_eq in E. repeat split; auto.
    destruct (IH Hnd') as [-> | (r' & Hin & Hk & _)]; [reflexivity|].
    exfalso. apply Hr. rewrite E, <- Hk. now apply in_map.
  - destruct (IH Hnd') as [Hnone | (r' & Hin & Hk & Hone)]; [now left|].
    right. exists r'. auto.
Qed.

Lemma rows_under_own_key df r :
  one_row_per_key df -> In r df ->
  filter (fun r' => key_eqb (row_key r') (row_key r)) df = [r].
Proof.
  intros Hnd Hin.
  destruct (rows_under_key df (row_key r) Hnd) as [Hnone | (r' & _ & _ & Hone)].
  - assert (In r (filter (fun r' => key_eqb (row_key r') (row_key r)) df)) as H
        by (apply filter_In; split; [exact Hin | apply key_eqb_refl]).
    rewrite Hnone in H. contradiction.
  - assert (In r (filter (fun r' => key_eqb (row_key r') (row_key r)) df)) as H
        by (apply filter_In; split; [exact Hin | apply key_eqb_refl]).
    rewrite Hone in H |- *. destruct H as [-> | []]. reflexivity.
Qed.

(** The merged frame has one row for each cell of the grid, in grid order. *)
Lemma merge_left_keys full_df df :
  one_row_per_key df -> map m_key (merge_left full_df df) = full_df.
Proof.
  intros Hnd.
  induction full_df as [|[d u] full_df IH]; [reflexivity|].
  unfold merge_left in *. cbn [flat_map]. rewrite map_app, IH. f_equal.
  destruct (rows_under_key df (d, u) Hnd) as [-> | (r & _ & _ & ->)];
    reflexivity.
Qed.

(** The rows of the merged frame: a real row for a key of [df], a row of
    missing values for any other cell. *)
Lemma In_merge_left full_df df m :
  one_row_per_key df ->
  In m (merge_left full_df df) <->
  (exists r, In r df /\ In (row_key r) full_df /\ m = real_row r)
  \/ (In (m_key m) full_df /\ ~ In (m_key m) (map row_key df)
      /\ m = mkMerged (m_Date m) (m_UnifiedUser m) None None).
Proof.
  intros Hnd. unfold merge_left. rewrite in_flat_map. split.
  - intros ([d u] & Hk & Hm).
    destruct (rows_under_key df (d, u) Hnd) as [Hnone | (r & Hr & Hkey & Hone)].
    + rewrite Hnone in Hm. destruct Hm as [<- | []]. right. simpl.
      repeat split; auto. intros Hin. apply in_map_iff in Hin.
      destruct Hin as (r & Hkey & Hr).
      assert (In r (filter (fun r => key_eqb (row_key r) (d, u)) df)) as H
          by (apply filter_In; split; [exact Hr | now apply key_eqb_eq]).
      rewrite Hnone in H. contradiction.
    + rewrite Hone in Hm. destruct Hm as [<- | []]. left. exists r.
      rewrite Hkey. repeat split; auto.
      unfold real_row. unfold row_key in Hkey. now injection Hkey as -> ->.
  - intros [(r & Hr & Hk & ->) | (Hk & Hout & Hm)].
    + exists (row_key r). split; [exact Hk|].
      rewrite (rows_under_own_key df r Hnd Hr). left. reflexivity.
    + exists (m_key m). split; [exact Hk|].
      destruct (rows_under_key df (m_key m) Hnd)
        as [-> | (r & Hr & Hkey & _)]; [left; now rewrite Hm at 3|].
      exfalso. apply Hout. rewrite <- Hkey. now apply in_map.
Qed.

(** The rows of [groupby("Date").apply(fill_missing)]: every merged row, its
    missing values filled from the rows of its own date. *)
Lemma In_filled merged m :
  In m (groupby_date_apply m_Date fill_missing merged) <->
  exists m0,
    In m0 merged
    /\ m = mkMerged (m_Date m0) (m_UnifiedUser m0)
             (fillna (Some 0) (m_Influence m0))
             (fillna (column_max_skipna
                        (map m_Rank
                           (filter (fun r => m_Date r =? m_Date m0) merged)))
                     (m_Rank m0)).
Proof.
  assert (forall D,
            filter (fun r => m_Date r =? D)
              (groupby_date_apply m_Date fill_missing merged)
            = fill_missing (filter (fun r => m_Date r =? D) merged)) as Hdate.
  { intros D. apply groupby_date_apply_on_date; [|reflexivity].
    intros group d Hgroup. unfold fill_missing. rewrite Forall_map. exact Hgroup. }
  split.
  - intros Hm.
    assert (In m (filter (fun r => m_Date r =? m_Date m)
                    (groupby_date_apply m_Date fill_missing merged))) as Hm'
        by (apply filter_In; split; [exact Hm | apply Z.eqb_refl]).
    rewrite Hdate in Hm'. unfold fill_missing in Hm'.
    apply in_map_iff in Hm'. destruct Hm' as (m0 & Heq & Hm0).
    apply filter_In in Hm0. destruct Hm0 as [Hm0 Hd].
    apply Z.eqb_eq in Hd. rewrite <- Hd in Heq.
    exists m0. split; [exact Hm0 | now symmetry].
  - intros (m0 & Hm0 & ->).
    apply (proj1 (filter_In (fun r => m_Date r =? m_Date m0) _ _)).
    rewrite Hdate. unfold fill_missing. apply in_map_iff. exists m0.
    split; [reflexivity|]. apply filter_In. split; [exact Hm0 | apply Z.eqb_refl].
Qed.

(** How many rows the filled frame has at a cell. *)
Lemma cell_count_filled full_df df k :
  one_row_per_key df -> NoDup full_df ->
  cell_count k (groupby_date_apply m_Date fill_missing (merge_left full_df df))
  = if in_dec key_eq_dec k full_df then 1%nat else 0%nat.
Proof.
  intros Hnd Hfull. unfold cell_count.
  set (merged := merge_left full_df df).
  rewrite <- (filter_refine (fun r => key_eqb (m_key r) k)
                (fun r => m_Date r =? fst k)).
  2:{ intros r Hr. apply key_eqb_eq in Hr. rewrite <- Hr. apply Z.eqb_refl. }
  rewrite groupby_date_apply_on_date with (date_of' := m_Date);
    [ | intros group d Hgroup; unfold fill_missing; rewrite Forall_map;
        exact Hgroup | reflexivity ].
  unfold fill_missing. rewrite filter_map_swap, length_map. simpl.
  change (fun a : MergedRow => key_eqb (m_Date a, m_UnifiedUser a) k)
    with (fun r => key_eqb (m_key r) k).
  rewrite filter_refine.
  2:{ intros r Hr. apply key_eqb_eq in Hr. rewrite <- Hr. apply Z.eqb_refl. }
  rewrite <- (count_in_NoDup k full_df Hfull).
  assert (map m_key merged = full_df) as Hcells
      by (apply merge_left_keys, Hnd).
  rewrite <- Hcells. now rewrite filter_map_swap, length_map.
Qed.

(** ** [create_all_dates_user_df] *)

(** What the function returns, when it returns. *)
Lemma create_all_dates_user_df_inv df grid :
  create_all_dates_user_df df = Some grid ->
  exists first last,
    column_min (map Date df) = Some first
    /\ column_max (map Date df) = Some last
    /\ grid = groupby_date_apply m_Date fill_missing
                (merge_left (list_prod (range first (last + 1))
                                       (unique (map UnifiedUser df))) df).
Proof.
  unfold create_all_dates_user_df, date_range.
  destruct (column_min (map Date df)) as [first|]; [|discriminate].
  destruct (column_max (map Date df)) as [last|]; [|discriminate].
  intros [= <-]. exists first, last. auto.
Qed.

(** It returns on every frame that has a row. *)
Lemma create_all_dates_user_df_some df :
  df <> [] -> exists grid, create_all_dates_user_df df = Some grid.
Proof.
  intros Hne. unfold create_all_dates_user_df, date_range.
  destruct (column_min_some (map Date df)) as [first ->];
    [destruct df; [congruence | discriminate]|].
  destruct (column_max_some (map Date df)) as [last ->];
    [destruct df; [congruence | discriminate]|].
  eauto.
Qed.

(** On the empty frame the bounds of [date_range] are NaT. *)
Lemma create_all_dates_user_df_empty : create_all_dates_user_df [] = None.
Proof. reflexivity. Qed.

Section Densifier.
Variables (df : list Row) (first last : Z).
Hypothesis df_keys : one_row_per_key df.
Hypothesis df_first : column_min (map Date df) = Some first.
Hypothesis df_last : column_max (map Date df) = Some last.

Local Abbreviation full_df :=
  (list_prod (range first (last + 1)) (unique (map UnifiedUser df))).
Local Abbreviation merged := (merge_left full_df df).
Local Abbreviation grid := (groupby_date_apply m_Date fill_missing merged).

Lemma In_full_df d u :
  In (d, u) full_df <-> first <= d <= last /\ In u (map UnifiedUser df).
Proof.
  rewrite in_prod_iff, In_range, In_unique. intuition lia.
Qed.

Lemma NoDup_full_df : NoDup full_df.
Proof.
  apply NoDup_list_prod; [apply NoDup_range | apply NoDup_unique].
Qed.

Lemma dates_within_bounds d : In d (map Date df) -> first <= d <= last.
Proof.
  intros Hd.
  destruct (column_min_spec _ _ df_first) as [_ Hmin].
  destruct (column_max_spec _ _ df_last) as [_ Hmax].
  split; [now apply Hmin | now apply Hmax].
Qed.

Lemma row_key_in_full_df r : In r df -> In (row_key r) full_df.
Proof.
  intros Hr. apply In_full_df. split.
  - apply dates_within_bounds. now apply in_map.
  - now apply in_map.
Qed.


(** The ranks present on a date of the merged frame are the ranks of the
    rows of [df] on that date. *)
Lemma merged_ranks_on_date d x :
  In x (dropna (map m_Rank (filter (fun r => m_Date r =? d) merged)))
  <-> exists r, In r df /\ Date r = d /\ Rank r = x.
Proof.
  rewrite In_dropna, in_map_iff. split.
  - intros (m & Hrank & Hm). apply filter_In in Hm. destruct Hm as [Hm Hd].
    apply Z.eqb_eq in Hd.
    apply (In_merge_left full_df df m df_keys) in Hm.
    destruct Hm as [(r & Hr & _ & ->) | (_ & _ & Hmiss)].
    + exists r. simpl in *. repeat split; congruence.
    + rewrite Hmiss in Hrank. discriminate.
  - intros (r & Hr & Hd & Hx). exists (real_row r). split.
    + simpl. congruence.
    + apply filter_In. split; [|simpl; lia].
      apply (In_merge_left full_df df _ df_keys). left. exists r.
      repeat split; [exact Hr | now apply row_key_in_full_df].
Qed.

Lemma max_rank_on_date d :
  In d (map Date df) ->
  exists bottom,
    column_max_skipna (map m_Rank (filter (fun r => m_Date r =? d) merged))
    = Some bottom
    /\ bottom_rank df d bottom.
Proof.
  intros Hd. apply in_map_iff in Hd. destruct Hd as (r0 & Hd0 & Hr0).
  unfold column_max_skipna.
  destruct (column_max_some
              (dropna (map m_Rank (filter (fun r => m_Date r =? d) merged))))
    as [bottom Hmax].
  - intros Hnil.
    assert (In (Rank r0)
              (dropna (map m_Rank
                         (filter (fun r => m_Date r =? d) merged)))) as H
        by (apply merged_ranks_on_date; eauto).
    rewrite Hnil in H. contradiction.
  - exists bottom. split; [exact Hmax|].
    destruct (column_max_spec _ _ Hmax) as [Hin Hle]. split.
    + now apply merged_ranks_on_date.
    + intros r Hr Hdr. apply Hle. apply merged_ranks_on_date. eauto.
Qed.




Lemma synthesized_row_in_grid d u bottom :
  In (d, u) full_df ->
  ~ In (d, u) (map row_key df) ->
  column_max_skipna (map m_Rank (filter (fun r => m_Date r =? d) merged))
  = Some bottom ->
  In (mkMerged d u (Some 0) (Some bottom)) grid.
Proof.
  intros Hcell Hout Hmax. apply In_filled.
  exists (mkMerged d u None None). split.
  - apply (In_merge_left full_df df _ df_keys). right. auto.
  - simpl. now rewrite Hmax.
Qed.

Lemma grid_cell_count k :
  cell_count k grid = if in_dec key_eq_dec k full_df then 1%nat else 0%nat.
Proof.
  apply cell_count_filled; [exact df_keys | apply NoDup_full_df].
Qed.

Lemma grid_rows_in_full_df m : In m grid -> In (m_key m) full_df.
Proof.
  intros Hm. apply In_filled in Hm. destruct Hm as (m0 & Hm0 & ->).
  change (In (m_key m0) full_df).
  rewrite <- (merge_left_keys full_df df df_keys). now apply in_map.
Qed.
End Densifier.

(** ** The frame of [load_and_preprocess_data] is an aggregated frame *)

Lemma Permutation_filter {A : Type} (p : A -> bool) (l l' : list A) :
  Permutation l l' -> Permutation (filter p l) (filter p l').
Proof.
  induction 1 as [| x l l' _ IH | x y l | l l' l'' _ IH1 _ IH2]; simpl.
  - constructor.
  - destruct (p x); [now constructor | exact IH].
  - destruct (p x), (p y); try reflexivity. apply perm_swap.
  - now transitivity (filter p l').
Qed.

Lemma NoDup_by_count (keys : list key) :
  (forall k, (List.length (filter (fun k' => key_eqb k' k) keys) <= 1)%nat) ->
  NoDup keys.
Proof.
  induction keys as [|k0 keys IH]; intros Hcount; constructor.
  - intros Hin. specialize (Hcount k0). simpl in Hcount.
    rewrite key_eqb_refl in Hcount. simpl in Hcount.
    assert (In k0 (filter (fun k' => key_eqb k' k0) keys)) as H
        by (apply filter_In; split; [exact Hin | apply key_eqb_refl]).
    destruct (filter (fun k' => key_eqb k' k0) keys); [contradiction|].
    simpl in Hcount. lia.
  - apply IH. intros k. specialize (Hcount k). simpl in Hcount.
    destruct (key_eqb k0 k); simpl in Hcount; lia.
Qed.

(** One row for each pair of a date and a unified user. *)
Lemma load_and_preprocess_data_one_row_per_key sort_values csv :
  sort_values_spec sort_values ->
  one_row_per_key (load_and_preprocess_data sort_values csv).
Proof.
  intros Hsort. apply NoDup_by_count. intros k.
  rewrite filter_map_swap, length_map.
  rewrite <- (filter_refine (fun r => key_eqb (row_key r) k)
                (fun r => Date r =? fst k)).
  2:{ intros r Hr. apply key_eqb_eq in Hr. rewrite <- Hr. apply Z.eqb_refl. }
  rewrite (load_and_preprocess_data_on_date sort_values Hsort).
  set (group := filter (fun r => g_Date r =? fst k)
                  (groupby_sum (apply_unify_name csv))).
  change (fun r => key_eqb (row_key r) k)
    with (fun r => key_eqb (g_key (unrank r)) k).
  rewrite <- (length_map unrank).
  rewrite <- (filter_map_swap (fun g => key_eqb (g_key g) k) unrank).
  rewrite compute_daily_ranks_rows.
  rewrite <- (Permutation_length
               (Permutation_filter (fun g => key_eqb (g_key g) k) _ _
                  (proj1 (Hsort group)))).
  unfold group. rewrite filter_refine.
  2:{ intros r Hr. apply key_eqb_eq in Hr. rewrite <- Hr. apply Z.eqb_refl. }
  rewrite <- (length_map g_key).
  rewrite <- (filter_map_swap (fun k' => key_eqb k' k) g_key).
  rewrite groupby_sum_keys, count_in_NoDup by apply NoDup_key_keys.
  destruct (in_dec key_eq_dec k _); lia.
Qed.

(** A file with a record gives a frame with a row. *)
Lemma load_and_preprocess_data_nonempty sort_values csv :
  sort_values_spec sort_values ->
  csv <> [] -> load_and_preprocess_data sort_values csv <> [].
Proof.
  intros Hsort Hcsv Hnil. destruct csv as [|r0 csv]; [congruence|].
  assert (List.length
            (filter (fun r => Date r =? raw_Date r0)
               (load_and_preprocess_data sort_values (r0 :: csv))) = 0%nat)
    as Hlen by now rewrite Hnil.
  rewrite (load_and_preprocess_data_on_date sort_values Hsort) in Hlen.
  rewrite (compute_daily_ranks_length sort_values Hsort) in Hlen.
  rewrite groupby_sum_on_date, length_map, keys_on_date_count in Hlen.
  simpl in Hlen. rewrite Z.eqb_refl in Hlen. simpl in Hlen. discriminate.
Qed.

(** ** The claims about the densified grid *)

(** C7.  For an aggregated frame (one row for each key, at least one row) the
    densifier returns a grid that holds exactly one row for every pair of a
    date between the first and the last date of the frame, both included, and
    a user of the frame; the grid holds no other row. *)
Theorem densified_grid_covers_cross_product_once
    (df : list Row) (Hrows : df <> []) (Hkeys : one_row_per_key df) :
  exists first last grid,
    column_min (map Date df) = Some first
    /\ column_max (map Date df) = Some last
    /\ create_all_dates_user_df df = Some grid
    /\ (forall d u,
          first <= d <= last -> In u (map UnifiedUser df) ->
          cell_count (d, u) grid = 1%nat)
    /\ (forall m,
          In m grid ->
          first <= m_Date m <= last
          /\ In (m_UnifiedUser m) (map UnifiedUser df)).
Proof.
  destruct (create_all_dates_user_df_some df Hrows) as [grid Hgrid].
  destruct (create_all_dates_user_df_inv df grid Hgrid)
    as (first & last & Hfirst & Hlast & ->).
  exists first, last. eexists.
  split; [exact Hfirst | split; [exact Hlast | split; [exact Hgrid | split]]].
  - intros d u Hd Hu. rewrite (grid_cell_count df first last Hkeys).
    destruct (in_dec key_eq_dec (d, u) _) as [_ | Hout]; [reflexivity|].
    exfalso. apply Hout. now apply In_full_df.
  - intros m Hm. apply (grid_rows_in_full_df df first last Hkeys) in Hm.
    destruct m as [d u i k]. now apply In_full_df in Hm.
Qed.

Lemma densified_grid_covers_cross_product_once_witness :
  let df :=
    load_and_preprocess_data sort_values_keep_ties
      [mkRaw 1 "Sullivan Jr." 10; mkRaw 1 "sullivan" 5; mkRaw 1 "Deb H." 20;
       mkRaw 3 "Deb" 7]%string in
  exists first last grid,
    column_min (map Date df) = Some first
    /\ column_max (map Date df) = Some last
    /\ create_all_dates_user_df df = Some grid
    /\ (forall d u,
          first <= d <= last -> In u (map UnifiedUser df) ->
          cell_count (d, u) grid = 1%nat)
    /\ (forall m,
          In m grid ->
          first <= m_Date m <= last
          /\ In (m_UnifiedUser m) (map UnifiedUser df)).
Proof.
  apply (densified_grid_covers_cross_product_once
           (load_and_preprocess_data sort_values_keep_ties
              [mkRaw 1 "Sullivan Jr." 10; mkRaw 1 "sullivan" 5;
               mkRaw 1 "Deb H." 20; mkRaw 3 "Deb" 7]%string)).
  - apply load_and_preprocess_data_nonempty;
      [apply sort_values_keep_ties_spec | discriminate].
  - apply load_and_preprocess_data_one_row_per_key.
    apply sort_values_keep_ties_spec.
Defined.



End PipelineFacts.

(* ------------------------------------------------------------------ *)
(** * Further facts about the name unifier *)
(* ------------------------------------------------------------------ *)

Module UnifierMore.
Import Unifier UnifierFacts.

(** ** [lower] and the [in] operator *)

Lemma lower_char_idempotent c : lower_char (lower_char c) = lower_char c.
Proof.
  destruct c as [b0 b1 b2 b3 b4 b5 b6 b7].
  destruct b0, b1, b2, b3, b4, b5, b6, b7; reflexivity.
Qed.

Lemma lower_idempotent s : lower (lower s) = lower s.
Proof.
  induction s as [|c s IH]; simpl; [reflexivity|].
  now rewrite lower_char_idempotent, IH.
Qed.

Lemma lower_length s : String.length (lower s) = String.length s.
Proof. induction s as [|c s IH]; simpl; [reflexivity | now rewrite IH]. Qed.

Lemma lower_append a b : lower (a ++ b) = lower a ++ lower b.
Proof. induction a as [|c a IH]; simpl; [reflexivity | now rewrite IH]. Qed.

Lemma prefix_split pattern s :
  prefix pattern s = true <-> exists after, s = pattern ++ after.
Proof.
  revert s. induction pattern as [|c pattern IH]; intros s; simpl.
  - split; [intros _; exists s; reflexivity | destruct s; reflexivity].
  - destruct s as [|c' s]; simpl.
    + split; [discriminate | intros (after & H); discriminate].
    + destruct (ascii_dec c c') as [-> | Hne].
      * rewrite IH. split.
        -- intros (after & ->). exists after. reflexivity.
        -- intros (after & [= ->]). exists after. reflexivity.
      * split; [discriminate | intros (after & [= -> _]); congruence].
Qed.

(** [pattern in s] holds exactly when [s] splits around [pattern]. *)
Lemma str_in_split pattern s :
  str_in pattern s = true <->
  exists before after, s = before ++ pattern ++ after.
Proof.
  induction s as [|c s IH].
  - cbn [str_in]. rewrite orb_false_r, prefix_split. split.
    + intros (after & ->). exists "", after. reflexivity.
    + intros ([|c before] & after & H); [|discriminate].
      exists after. exact H.
  - cbn [str_in]. rewrite orb_true_iff, prefix_split, IH. split.
    + intros [(after & ->) | (before & after & ->)].
      * exists "", after. reflexivity.
      * exists (String c before), after. reflexivity.
    + intros ([|c' before] & after & H).
      * left. exists after. exact H.
      * right. injection H as -> ->. exists before, after. reflexivity.
Qed.

Lemma append_length a b :
  String.length (a ++ b) = String.length a + String.length b.
Proof. induction a as [|c a IH]; simpl; [reflexivity | now rewrite IH]. Qed.

Lemma str_in_length pattern s :
  str_in pattern s = true -> String.length pattern <= String.length s.
Proof.
  intros H. apply str_in_split in H. destruct H as (before & after & ->).
  rewrite !append_length. lia.
Qed.

(** The scan, read backwards: the rule it stopped at. *)
Lemma scan_rules_stops_at rules name_lower unified_display :
  scan_rules rules name_lower = Some unified_display ->
  exists earlier patterns later,
    rules = (earlier ++ (patterns, unified_display) :: later)%list
    /\ any_pattern patterns name_lower = true
    /\ forall ps u, In (ps, u) earlier -> any_pattern ps name_lower = false.
Proof.
  induction rules as [|[ps u] rules IH]; simpl; [discriminate|].
  destruct (any_pattern ps name_lower) eqn:E.
  - intros [= <-]. exists [], ps, rules. repeat split; auto.
    intros ps' u' [].
  - intros H. destruct (IH H) as (earlier & patterns & later & -> & Hm & He).
    exists ((ps, u) :: earlier), patterns, later. repeat split; auto.
    intros ps' u' [[= <- <-] | Hin]; [exact E | now apply (He ps' u')].
Qed.

(** ** Properties *)

(** X1.  [unify_name] looks at its input through [lower] only: two names
    that differ in case alone are unified to the same display name, or are
    each returned as they are. *)
Theorem unify_name_ignores_case (a b : string) (Hcase : lower a = lower b) :
  unify_name a = unify_name b \/ (unify_name a = a /\ unify_name b = b).
Proof.
  unfold unify_name. rewrite Hcase.
  destruct (str_in "hull's wife" (lower b)); [right; auto|].
  destruct (scan_rules unification_map (lower b)); [left | right]; auto.
Qed.

Lemma unify_name_ignores_case_witness :
  unify_name "MCCARTHY jr" = unify_name "McCarthy JR"
  \/ (unify_name "MCCARTHY jr" = "MCCARTHY jr"
      /\ unify_name "McCarthy JR" = "McCarthy JR").
Proof.
  apply (unify_name_ignores_case "MCCARTHY jr" "McCarthy JR"). reflexivity.
Defined.

(** X2.  A name that [unify_name] changes has been given the display name of
    the first rule of the table with a pattern in the lowercased name, and
    does not contain "hull's wife". *)
Theorem unify_name_changes_only_by_rule (name : string)
    (Hchanged : unify_name name <> name) :
  str_in "hull's wife" (lower name) = false
  /\ exists earlier patterns later,
       unification_map
       = (earlier ++ (patterns, unify_name name) :: later)%list
       /\ (exists pattern before after,
             In pattern patterns
             /\ lower name = before ++ lower pattern ++ after)
       /\ forall ps u pattern,
            In (ps, u) earlier -> In pattern ps ->
            str_in (lower pattern) (lower name) = false.
Proof.
  destruct (unify_name_cases name) as [[_ H] | [(_ & _ & H) | [Hw H]]];
    [congruence | congruence |].
  split; [exact Hw|].
  apply scan_rules_stops_at in H.
  destruct H as (earlier & patterns & later & Hmap & Hm & He).
  exists earlier, patterns, later. split; [exact Hmap | split].
  - apply any_pattern_true in Hm. destruct Hm as (p & Hp & Hin).
    apply str_in_split in Hin. destruct Hin as (before & after & Hs).
    exists p, before, after. auto.
  - intros ps u p Hr Hp.
    now apply (proj1 (any_pattern_false ps (lower name)) (He ps u Hr)).
Qed.

Lemma unify_name_changes_only_by_rule_witness :
  str_in "hull's wife" (lower "Deb H.") = false
  /\ exists earlier patterns later,
       unification_map
       = (earlier ++ (patterns, unify_name "Deb H.") :: later)%list
       /\ (exists pattern before after,
             In pattern patterns
             /\ lower "Deb H." = before ++ lower pattern ++ after)
       /\ forall ps u pattern,
            In (ps, u) earlier -> In pattern ps ->
            str_in (lower pattern) (lower "Deb H.") = false.
Proof.
  apply (unify_name_changes_only_by_rule "Deb H."). vm_compute. discriminate.
Defined.

(** X3.  A name of fewer than three characters is never unified: every
    pattern of the table has at least three. *)
Theorem unify_name_short_name_unchanged (name : string)
    (Hshort : String.length name < 3) :
  unify_name name = name.
Proof.
  unfold unify_name.
  destruct (str_in "hull's wife" (lower name)); [reflexivity|].
  rewrite scan_rules_none; [reflexivity|].
  intros ps u Hr. apply any_pattern_false. intros p Hp.
  destruct (str_in (lower p) (lower name)) eqn:E; [|reflexivity].
  apply str_in_length in E. rewrite !lower_length in E.
  assert (forallb (fun r : rule =>
                     forallb (fun p => Nat.leb 3 (String.length p)) (fst r))
                  unification_map = true) as Hlen by (vm_compute; reflexivity).
  rewrite forallb_forall in Hlen. specialize (Hlen (ps, u) Hr).
  cbn [fst] in Hlen.
  rewrite forallb_forall in Hlen. specialize (Hlen p Hp).
  apply Nat.leb_le in Hlen. lia.
Qed.

Lemma unify_name_short_name_unchanged_witness : unify_name "De" = "De".
Proof. apply (unify_name_short_name_unchanged "De"). simpl. lia. Defined.

(** X4.  A name that contains a pattern of the table anywhere, in whatever
    case, and does not contain "hull's wife", is always given a display name
    of the table. *)
Theorem unify_name_pattern_anywhere
    (name pattern before after : string) (patterns : list string)
    (unified_display : string)
    (Hrule : In (patterns, unified_display) unification_map)
    (Hpattern : In pattern patterns)
    (Hsplit : lower name = before ++ lower pattern ++ after)
    (Hwife : str_in "hull's wife" (lower name) = false) :
  In (unify_name name) display_names.
Proof.
  destruct (unify_name_cases name) as [[Hw _] | [(_ & Hnone & _) | [_ H]]].
  - congruence.
  - exfalso.
    assert (any_pattern patterns (lower name) = true) as Hm.
    { apply any_pattern_true. exists pattern. split; [exact Hpattern|].
      apply str_in_split. eauto. }
    apply in_split in Hrule. destruct Hrule as (earlier & later & Hmap).
    rewrite Hmap in Hnone. clear - Hnone Hm.
    induction earlier as [|[ps u] earlier IH]; simpl in Hnone.
    + now rewrite Hm in Hnone.
    + destruct (any_pattern ps (lower name)); [discriminate | now apply IH].
  - apply scan_rules_some in H. destruct H as (ps & Hin & _).
    apply (in_map snd _ _ Hin).
Qed.

Lemma unify_name_pattern_anywhere_witness :
  In (unify_name "The Iron Smith III") display_names.
Proof.
  apply (unify_name_pattern_anywhere
           "The Iron Smith III" "iron smith" "the " " iii"
           ["iron smith"] "Iron Smith").
  - simpl. do 16 right. left. reflexivity.
  - left. reflexivity.
  - reflexivity.
  - reflexivity.
Defined.

End UnifierMore.

(* ------------------------------------------------------------------ *)
(** * Further facts about aggregation and ranking *)
(* ------------------------------------------------------------------ *)

Module PipelineMore.
Import Unifier Frames Pipeline FramesFacts PipelineFacts.
Local Open Scope Z_scope.
Local Open Scope list_scope.

(** ** A strictly sorted list is determined by its members *)

Section SortedKeys.
Context {K : Type} (compare : K -> K -> comparison).
Hypothesis compare_eq : forall x y, compare x y = Eq <-> x = y.
Hypothesis compare_antisym : forall x y, compare y x = CompOpp (compare x y).
Hypothesis compare_trans :
  forall x y z, compare x y = Lt -> compare y z = Lt -> compare x z = Lt.

Lemma compare_irrefl x : compare x x <> Lt.
Proof. rewrite (proj2 (compare_eq x x) eq_refl). discriminate. Qed.

Lemma sorted_keys_unique (l1 l2 : list K) :
  StronglySorted (fun x y => compare x y = Lt) l1 ->
  StronglySorted (fun x y => compare x y = Lt) l2 ->
  (forall x, In x l1 <-> In x l2) ->
  l1 = l2.
Proof.
  intros H1. revert l2.
  induction H1 as [|x l1 Hs1 IH Hall1]; intros l2 H2 Hsame.
  - destruct l2 as [|y l2]; [reflexivity|].
    exfalso. apply (proj2 (Hsame y)). now left.
  - destruct H2 as [|y l2 Hs2 Hall2].
    + exfalso. apply (proj1 (Hsame x)). now left.
    + rewrite Forall_forall in Hall1, Hall2.
      assert (x = y) as ->.
      { destruct (proj1 (Hsame x) (or_introl eq_refl)) as [Hy | Hx];
          [now symmetry|].
        destruct (proj2 (Hsame y) (or_introl eq_refl)) as [Hy | Hy];
          [exact Hy|].
        exfalso. apply (compare_irrefl x).
        apply (compare_trans x y x); [now apply Hall1 | now apply Hall2]. }
      f_equal. apply IH; [exact Hs2|]. intros z. split; intros Hz.
      * destruct (proj1 (Hsame z) (or_intror Hz)) as [Hy | Hz']; [|exact Hz'].
        subst z. exfalso. apply (compare_irrefl y). now apply Hall1.
      * destruct (proj2 (Hsame z) (or_intror Hz)) as [Hy | Hz']; [|exact Hz'].
        subst z. exfalso. apply (compare_irrefl y). now apply Hall2.
Qed.

End SortedKeys.

(** ** The ranked frame against the grouped frame *)

Section RankedFrame.
Variable sort_values : list GroupedRow -> list GroupedRow.
Hypothesis sort_values_ok : sort_values_spec sort_values.
Variable csv : list RawRecord.

Local Abbreviation grouped := (groupby_sum (apply_unify_name csv)).
Local Abbreviation ranked := (load_and_preprocess_data sort_values csv).

Lemma In_ranked_unrank r : In r ranked -> In (unrank r) grouped.
Proof.
  intros Hr.
  assert (In r (filter (fun x => Date x =? Date r) ranked)) as H
      by (apply filter_In; split; [exact Hr | apply Z.eqb_refl]).
  rewrite (load_and_preprocess_data_on_date sort_values sort_values_ok) in H.
  apply (in_map unrank) in H. rewrite compute_daily_ranks_rows in H.
  apply (Permutation_in _ (Permutation_sym (proj1 (sort_values_ok _)))) in H.
  now apply filter_In in H.
Qed.

Lemma In_grouped_ranked g :
  In g grouped -> exists r, In r ranked /\ unrank r = g.
Proof.
  intros Hg.
  assert (In g (filter (fun x => g_Date x =? g_Date g) grouped)) as H
      by (apply filter_In; split; [exact Hg | apply Z.eqb_refl]).
  apply (Permutation_in _ (proj1 (sort_values_ok _))) in H.
  rewrite <- compute_daily_ranks_rows in H.
  rewrite <- (load_and_preprocess_data_on_date sort_values sort_values_ok) in H.
  apply in_map_iff in H. destruct H as (r & Hr & Hin).
  apply filter_In in Hin. exists r. tauto.
Qed.

(** A row of the grouped frame: a group key with the sum of its group. *)
Lemma In_grouped g :
  In g grouped <->
  In (g_key g) (map u_key (apply_unify_name csv))
  /\ g_Influence g
     = column_sum
         (map raw_Influence
            (filter (fun r => (raw_Date r =? g_Date g)
                              && (unify_name (raw_User r) =? g_UnifiedUser g)%string)
               csv)).
Proof.
  assert (forall k,
            column_sum (map u_Influence
                          (filter (fun r => key_eqb (u_key r) k)
                             (apply_unify_name csv)))
            = column_sum
                (map raw_Influence
                   (filter (fun r => (raw_Date r =? fst k)
                                     && (unify_name (raw_User r) =? snd k)%string)
                      csv))) as Hsum.
  { intros k. unfold apply_unify_name.
    rewrite filter_map_swap, map_map. reflexivity. }
  unfold groupby_sum. rewrite in_map_iff. split.
  - intros (k & <- & Hk). apply (proj1 (In_key_keys _ _)) in Hk.
    destruct k as [d u]. split; [exact Hk | apply Hsum].
  - intros [Hk Hv]. exists (g_key g). split; [|now apply In_key_keys].
    destruct g as [d u v]. simpl in *. rewrite Hv, Hsum. reflexivity.
Qed.

Lemma In_unified_keys d u :
  In (d, u) (map u_key (apply_unify_name csv)) <->
  exists r, In r csv /\ raw_Date r = d /\ unify_name (raw_User r) = u.
Proof.
  unfold apply_unify_name. rewrite map_map, in_map_iff.
  unfold u_key. simpl. split.
  - intros (r & [= Hd Hu] & Hin). eauto.
  - intros (r & Hin & Hd & Hu). exists r. split; [congruence | exact Hin].
Qed.
End RankedFrame.

(** ** Ranks against influence *)

Lemma StronglySorted_both {A : Type} (R R' : A -> A -> Prop) (l : list A) :
  StronglySorted R l -> StronglySorted R' l ->
  StronglySorted (fun a b => R a b /\ R' a b) l.
Proof.
  induction 1 as [|x l Hs IH Hall]; intros H'; [constructor|].
  inversion H' as [|? ? Hs' Hall']; subst. constructor; [now apply IH|].
  rewrite Forall_forall in *. auto.
Qed.

Lemma StronglySorted_trichotomy {A : Type} (R : A -> A -> Prop) (l : list A)
    (a b : A) :
  StronglySorted R l -> In a l -> In b l -> a = b \/ R a b \/ R b a.
Proof.
  induction 1 as [|x l Hs IH Hall]; intros Ha Hb; [contradiction|].
  rewrite Forall_forall in Hall.
  destruct Ha as [-> | Ha], Hb as [-> | Hb]; auto.
Qed.

Lemma range_increasing a b : StronglySorted Z.lt (range a b).
Proof.
  unfold range. generalize (Z.to_nat (b - a)) as n. generalize 0%nat as s.
  intros s n. revert s.
  induction n as [|n IH]; intros s; simpl; constructor; [apply IH|].
  apply Forall_forall. intros x Hx. apply in_map_iff in Hx.
  destruct Hx as (i & <- & Hi). apply in_seq in Hi. lia.
Qed.

Lemma compute_daily_ranks_order sort_values group :
  sort_values_spec sort_values ->
  StronglySorted
    (fun a b => Political_Influence b <= Political_Influence a
                /\ Rank a < Rank b)
    (compute_daily_ranks sort_values group).
Proof.
  intros Hsort. apply StronglySorted_both.
  - apply (StronglySorted_map descending unrank).
    rewrite compute_daily_ranks_rows. apply Hsort.
  - apply (StronglySorted_map Z.lt Rank).
    rewrite (compute_daily_ranks_ranks sort_values Hsort).
    apply range_increasing.
Qed.

(** ** Properties *)

(** X5.  The aggregated frame has one row for each pair of a date and a
    unified name, and its pairs are exactly those of the records of the
    file. *)
Theorem aggregated_rows_are_the_pairs_of_the_file
    (sort_values : list GroupedRow -> list GroupedRow)
    (sort_values_ok : sort_values_spec sort_values)
    (csv : list RawRecord) :
  NoDup (map row_key (load_and_preprocess_data sort_values csv))
  /\ forall d u,
       In (d, u) (map row_key (load_and_preprocess_data sort_values csv))
       <-> exists r, In r csv /\ raw_Date r = d
                     /\ unify_name (raw_User r) = u.
Proof.
  split.
  - now apply load_and_preprocess_data_one_row_per_key.
  - intros d u. rewrite <- In_unified_keys. rewrite in_map_iff. split.
    + intros (r & Hkey & Hr).
      apply (In_ranked_unrank sort_values sort_values_ok) in Hr.
      apply In_grouped in Hr. destruct Hr as [Hr _].
      now rewrite <- Hkey.
    + intros Hk.
      assert (In (d, u) (map g_key (groupby_sum (apply_unify_name csv))))
        as Hg by (rewrite groupby_sum_keys; now apply In_key_keys).
      apply in_map_iff in Hg. destruct Hg as (g & Hkey & Hg).
      destruct (In_grouped_ranked sort_values sort_values_ok csv g Hg)
        as (r & Hr & <-).
      exists r. split; [exact Hkey | exact Hr].
Qed.

Lemma aggregated_rows_are_the_pairs_of_the_file_witness :
  let csv := [mkRaw 1 "Sullivan Jr." 10; mkRaw 1 "sullivan" 5;
              mkRaw 2 "Deb H." 20]%string in
  NoDup (map row_key (load_and_preprocess_data sort_values_keep_ties csv))
  /\ forall d u,
       In (d, u)
          (map row_key (load_and_preprocess_data sort_values_keep_ties csv))
       <-> exists r, In r csv /\ raw_Date r = d
                     /\ unify_name (raw_User r) = u.
Proof.
  apply (aggregated_rows_are_the_pairs_of_the_file
           sort_values_keep_ties sort_values_keep_ties_spec).
Defined.

(** X7.  On one date, a row of strictly larger influence has a strictly
    smaller rank, and no two rows share a rank. *)
Theorem larger_influence_smaller_rank
    (sort_values : list GroupedRow -> list GroupedRow)
    (sort_values_ok : sort_values_spec sort_values)
    (csv : list RawRecord) (a b : Row)
    (Ha : In a (load_and_preprocess_data sort_values csv))
    (Hb : In b (load_and_preprocess_data sort_values csv))
    (Hdate : Date a = Date b) :
  (Political_Influence b < Political_Influence a -> Rank a < Rank b)
  /\ (Rank a = Rank b -> a = b).
Proof.
  assert (forall r, In r (load_and_preprocess_data sort_values csv) ->
                    Date r = Date a ->
                    In r (compute_daily_ranks sort_values
                            (filter (fun g => g_Date g =? Date a)
                               (groupby_sum (apply_unify_name csv))))) as Hin.
  { intros r Hr Hd.
    rewrite <- (load_and_preprocess_data_on_date sort_values sort_values_ok).
    apply filter_In. split; [exact Hr | lia]. }
  destruct (StronglySorted_trichotomy _ _ a b
              (compute_daily_ranks_order sort_values _ sort_values_ok)
              (Hin a Ha eq_refl) (Hin b Hb (eq_sym Hdate)))
    as [-> | [[H1 H2] | [H1 H2]]]; split; intros; try reflexivity; lia.
Qed.

Lemma larger_influence_smaller_rank_witness :
  let a := mkRow 1 "Deb" 20 1 in
  let b := mkRow 1 "Sullivan" 15 2 in
  (Political_Influence b < Political_Influence a -> Rank a < Rank b)
  /\ (Rank a = Rank b -> a = b).
Proof.
  apply (larger_influence_smaller_rank
           sort_values_keep_ties sort_values_keep_ties_spec
           [mkRaw 1 "Sullivan Jr." 10; mkRaw 1 "sullivan" 5;
            mkRaw 1 "Deb H." 20]%string
           (mkRow 1 "Deb" 20 1) (mkRow 1 "Sullivan" 15 2)).
  - vm_compute. left. reflexivity.
  - vm_compute. right. left. reflexivity.
  - reflexivity.
Defined.

End PipelineMore.

(* ------------------------------------------------------------------ *)
(** * Further facts about the densified grid *)
(* ------------------------------------------------------------------ *)

Module DensifierMore.
Import Unifier Frames Pipeline FramesFacts PipelineFacts PipelineMore.
Local Open Scope Z_scope.
Local Open Scope list_scope.

(** ** The cells of the grid, row by row *)

Lemma map_flat_map {A B C : Type} (f : B -> C) (g : A -> list B) (l : list A) :
  map f (flat_map g l) = flat_map (fun x => map f (g x)) l.
Proof.
  induction l as [|x l IH]; simpl; [reflexivity|].
  now rewrite map_app, IH.
Qed.

Lemma flat_map_ext_in {A B : Type} (f g : A -> list B) (l : list A) :
  (forall x, In x l -> f x = g x) -> flat_map f l = flat_map g l.
Proof.
  induction l as [|x l IH]; simpl; intros H; [reflexivity|].
  rewrite (H x) by auto. rewrite IH by auto. reflexivity.
Qed.

Lemma filter_fst_list_prod (dates : list Z) (users : list string) d :
  NoDup dates ->
  filter (fun k : key => fst k =? d) (list_prod dates users)
  = if in_dec Z.eq_dec d dates then map (pair d) users else [].
Proof.
  induction 1 as [|x dates Hx Hnd IH]; [reflexivity|].
  change (list_prod (x :: dates) users)
    with (map (pair x) users ++ list_prod dates users).
  rewrite filter_app. unfold key in *. rewrite IH.
  destruct (Z.eq_dec x d) as [-> | Hne].
  - rewrite filter_all
      by (apply Forall_forall; intros k Hk; apply in_map_iff in Hk;
          destruct Hk as (u & <- & _); apply Z.eqb_refl).
    destruct (in_dec Z.eq_dec d dates) as [Hin | _]; [contradiction|].
    destruct (in_dec Z.eq_dec d (d :: dates)) as [_ | Hout];
      [apply app_nil_r | exfalso; apply Hout; now left].
  - rewrite filter_none
      by (apply Forall_forall; intros k Hk; apply in_map_iff in Hk;
          destruct Hk as (u & <- & _); simpl; lia).
    destruct (in_dec Z.eq_dec d dates) as [Hin | Hout];
      destruct (in_dec Z.eq_dec d (x :: dates)) as [Hin' | Hout'];
      try reflexivity.
    + exfalso. apply Hout'. now right.
    + exfalso. destruct Hin' as [Heq | Hin']; [congruence | contradiction].
Qed.

Lemma list_prod_by_dates (dates : list Z) (users : list string) :
  NoDup dates ->
  flat_map (fun d => filter (fun k : key => fst k =? d)
                       (list_prod dates users)) dates
  = list_prod dates users.
Proof.
  intros Hnd.
  transitivity (flat_map (fun d => map (pair d) users) dates).
  - apply flat_map_ext_in. intros d Hd.
    rewrite filter_fst_list_prod by exact Hnd.
    destruct (in_dec Z.eq_dec d dates); [reflexivity | contradiction].
  - clear Hnd. induction dates as [|d dates IH]; [reflexivity|].
    change (list_prod (d :: dates) users)
      with (map (pair d) users ++ list_prod dates users).
    cbn [flat_map]. now rewrite IH.
Qed.

Lemma date_keys_of_list_prod (dates : list Z) (users : list string) :
  users <> [] -> StronglySorted Z.lt dates ->
  group_keys Z.compare (map fst (list_prod dates users)) = dates.
Proof.
  intros Husers Hsorted.
  apply (sorted_keys_unique Z.compare).
  - apply Z.compare_eq_iff.
  - intros x y z. rewrite !Z.compare_lt_iff. lia.
  - apply group_keys_sorted.
    + apply Z.compare_eq_iff.
    + intros x y. apply Z.compare_antisym.
    + intros x y z. rewrite !Z.compare_lt_iff. lia.
  - exact Hsorted.
  - intros d. rewrite In_date_keys, in_map_iff. split.
    + intros ([d' u] & <- & Hk). apply in_prod_iff in Hk. tauto.
    + intros Hd. destruct users as [|u users]; [congruence|].
      exists (d, u). split; [reflexivity|].
      apply in_prod_iff. split; [exact Hd | now left].
Qed.

Lemma fill_missing_keys group : map m_key (fill_missing group) = map m_key group.
Proof. unfold fill_missing. rewrite map_map. reflexivity. Qed.

(** The filled frame keeps the cells of the merged frame in their order,
    when these come date by date in ascending order. *)
Lemma filled_keys_in_grid_order (dates : list Z) (users : list string) df :
  one_row_per_key df -> users <> [] -> StronglySorted Z.lt dates ->
  NoDup dates ->
  map m_key (groupby_date_apply m_Date fill_missing
               (merge_left (list_prod dates users) df))
  = list_prod dates users.
Proof.
  intros Hkeys Husers Hsorted Hnd. unfold groupby_date_apply.
  set (merged := merge_left (list_prod dates users) df).
  assert (map m_key merged = list_prod dates users) as Hcells
      by (apply merge_left_keys, Hkeys).
  assert (map m_Date merged = map fst (list_prod dates users)) as Hdates
      by (rewrite <- Hcells, map_map; reflexivity).
  rewrite Hdates, date_keys_of_list_prod by assumption.
  rewrite map_flat_map.
  transitivity (flat_map (fun d => filter (fun k : key => fst k =? d)
                                     (list_prod dates users)) dates).
  - apply flat_map_ext_in. intros d _.
    rewrite fill_missing_keys, <- Hcells. now rewrite filter_map_swap.
  - now apply list_prod_by_dates.
Qed.

(** ** Missing values in the grid *)

Lemma nil_by_members {A : Type} (l : list A) :
  (forall x, ~ In x l) -> l = [].
Proof.
  destruct l as [|x l]; [reflexivity|]. intros H. exfalso.
  apply (H x). now left.
Qed.

Section GridValues.
Variables (df : list Row) (first last : Z).
Hypothesis df_keys : one_row_per_key df.
Hypothesis df_first : column_min (map Date df) = Some first.
Hypothesis df_last : column_max (map Date df) = Some last.

Local Abbreviation full_df :=
  (list_prod (range first (last + 1)) (unique (map UnifiedUser df))).
Local Abbreviation merged := (merge_left full_df df).
Local Abbreviation grid := (groupby_date_apply m_Date fill_missing merged).

Lemma no_rank_on_gap_date d :
  ~ In d (map Date df) ->
  column_max_skipna (map m_Rank (filter (fun r => m_Date r =? d) merged))
  = None.
Proof.
  intros Hgap. unfold column_max_skipna.
  rewrite (nil_by_members
             (dropna (map m_Rank (filter (fun r => m_Date r =? d) merged))));
    [reflexivity|].
  intros x Hx.
  apply (merged_ranks_on_date df first last df_keys df_first df_last) in Hx.
  destruct Hx as (r & Hr & Hd & _). apply Hgap. rewrite <- Hd.
  now apply in_map.
Qed.

Lemma grid_row_values m :
  In m grid ->
  m_Influence m <> None
  /\ (m_Rank m = None <-> ~ In (m_Date m) (map Date df))
  /\ (~ In (m_Date m) (map Date df) -> m_Influence m = Some 0).
Proof.
  intros Hm. apply In_filled in Hm. destruct Hm as (m0 & Hm0 & ->).
  apply (In_merge_left full_df df m0 df_keys) in Hm0.
  destruct Hm0 as [(r & Hr & _ & ->) | (_ & _ & Hmiss)].
  - assert (In (Date r) (map Date df)) as Hd by now apply in_map.
    simpl. repeat split; try discriminate; tauto.
  - rewrite Hmiss. simpl. split; [discriminate | split; [|reflexivity]].
    destruct (in_dec Z.eq_dec (m_Date m0) (map Date df)) as [Hin | Hgap].
    + destruct (max_rank_on_date df first last df_keys df_first df_last
                  (m_Date m0) Hin) as (bottom & -> & _).
      split; [discriminate | tauto].
    + rewrite (no_rank_on_gap_date (m_Date m0) Hgap). tauto.
Qed.
End GridValues.

(** ** The ranks of a date in the aggregated frame *)

Lemma ranks_on_date sort_values csv D :
  sort_values_spec sort_values ->
  map Rank (filter (fun r => Date r =? D)
              (load_and_preprocess_data sort_values csv))
  = range 1 (Z.of_nat
               (List.length
                  (unique (map (fun r => unify_name (raw_User r))
                             (filter (fun r => raw_Date r =? D) csv)))) + 1).
Proof.
  intros Hsort.
  rewrite (load_and_preprocess_data_on_date sort_values Hsort).
  rewrite compute_daily_ranks_ranks by assumption.
  now rewrite groupby_sum_on_date, length_map, keys_on_date_count.
Qed.

Lemma ranked_keys sort_values csv d u :
  sort_values_spec sort_values ->
  In (d, u) (map row_key (load_and_preprocess_data sort_values csv))
  <-> exists r, In r csv /\ raw_Date r = d /\ unify_name (raw_User r) = u.
Proof.
  intros Hsort. rewrite <- In_unified_keys. rewrite in_map_iff. split.
  - intros (r & Hkey & Hr).
    apply (In_ranked_unrank sort_values Hsort) in Hr.
    apply In_grouped in Hr. destruct Hr as [Hr _]. now rewrite <- Hkey.
  - intros Hk.
    assert (In (d, u) (map g_key (groupby_sum (apply_unify_name csv))))
      as Hg by (rewrite groupby_sum_keys; now apply In_key_keys).
    apply in_map_iff in Hg. destruct Hg as (g & Hkey & Hg).
    destruct (In_grouped_ranked sort_values Hsort csv g Hg) as (r & Hr & <-).
    exists r. split; [exact Hkey | exact Hr].
Qed.

(** ** Properties *)

(** X11.  The grid lists its cells in calendar order, and within a date the
    users in the order of their first appearance in the aggregated frame; it
    has as many rows as there are days from the first to the last date times
    distinct users. *)
Theorem grid_lists_cells_in_calendar_order
    (df : list Row) (grid : list MergedRow)
    (Hkeys : one_row_per_key df)
    (Hgrid : create_all_dates_user_df df = Some grid) :
  exists first last,
    column_min (map Date df) = Some first
    /\ column_max (map Date df) = Some last
    /\ map m_key grid
       = list_prod (range first (last + 1)) (unique (map UnifiedUser df))
    /\ List.length grid
       = (Z.to_nat (last - first + 1)
          * List.length (unique (map UnifiedUser df)))%nat.
Proof.
  destruct (create_all_dates_user_df_inv df grid Hgrid)
    as (first & last & Hfirst & Hlast & ->).
  exists first, last. split; [exact Hfirst | split; [exact Hlast|]].
  assert (map m_key
            (groupby_date_apply m_Date fill_missing
               (merge_left
                  (list_prod (range first (last + 1))
                             (unique (map UnifiedUser df))) df))
          = list_prod (range first (last + 1)) (unique (map UnifiedUser df)))
    as Hcells.
  { apply filled_keys_in_grid_order;
      [exact Hkeys | | apply range_increasing | apply NoDup_range].
    destruct df as [|r df]; [discriminate | discriminate]. }
  split; [exact Hcells|].
  transitivity
    (List.length
       (list_prod (range first (last + 1)) (unique (map UnifiedUser df)))).
  - apply (f_equal (@List.length key)) in Hcells.
    now rewrite length_map in Hcells.
  - rewrite length_prod, range_length. f_equal. lia.
Qed.

Lemma grid_lists_cells_in_calendar_order_witness :
  let df := [mkRow 3 "B" 4 1; mkRow 1 "B" 3 2; mkRow 1 "A" 5 1]%string in
  let grid :=
    [mkMerged 1 "B" (Some 3) (Some 2); mkMerged 1 "A" (Some 5) (Some 1);
     mkMerged 2 "B" (Some 0) None; mkMerged 2 "A" (Some 0) None;
     mkMerged 3 "B" (Some 4) (Some 1);
     mkMerged 3 "A" (Some 0) (Some 1)]%string in
  exists first last,
    column_min (map Date df) = Some first
    /\ column_max (map Date df) = Some last
    /\ map m_key grid
       = list_prod (range first (last + 1)) (unique (map UnifiedUser df))
    /\ List.length grid
       = (Z.to_nat (last - first + 1)
          * List.length (unique (map UnifiedUser df)))%nat.
Proof.
  apply (grid_lists_cells_in_calendar_order
           [mkRow 3 "B" 4 1; mkRow 1 "B" 3 2; mkRow 1 "A" 5 1]%string).
  - unfold one_row_per_key. simpl.
    repeat constructor; simpl; intuition discriminate.
  - reflexivity.
Defined.

(** X12.  No row of the grid lacks its influence.  A row lacks its rank (NaN)
    exactly when the aggregated frame has no row on its date, and its
    influence is then 0. *)
Theorem grid_missing_values
    (df : list Row) (grid : list MergedRow) (m : MergedRow)
    (Hkeys : one_row_per_key df)
    (Hgrid : create_all_dates_user_df df = Some grid)
    (Hm : In m grid) :
  m_Influence m <> None
  /\ (m_Rank m = None <-> ~ In (m_Date m) (map Date df))
  /\ (~ In (m_Date m) (map Date df) -> m_Influence m = Some 0).
Proof.
  destruct (create_all_dates_user_df_inv df grid Hgrid)
    as (first & last & Hfirst & Hlast & ->).
  now apply (grid_row_values df first last Hkeys Hfirst Hlast).
Qed.

Lemma grid_missing_values_witness :
  let df := [mkRow 1 "A" 5 1; mkRow 1 "B" 3 2; mkRow 3 "A" 4 1]%string in
  let m := mkMerged 2 "B" (Some 0) None in
  m_Influence m <> None
  /\ (m_Rank m = None <-> ~ In (m_Date m) (map Date df))
  /\ (~ In (m_Date m) (map Date df) -> m_Influence m = Some 0).
Proof.
  apply (grid_missing_values
           [mkRow 1 "A" 5 1; mkRow 1 "B" 3 2; mkRow 3 "A" 4 1]%string
           [mkMerged 1 "A" (Some 5) (Some 1); mkMerged 1 "B" (Some 3) (Some 2);
            mkMerged 2 "A" (Some 0) None; mkMerged 2 "B" (Some 0) None;
            mkMerged 3 "A" (Some 4) (Some 1);
            mkMerged 3 "B" (Some 0) (Some 1)]%string).
  - unfold one_row_per_key. simpl.
    repeat constructor; simpl; intuition discriminate.
  - reflexivity.
  - simpl. do 3 right. left. reflexivity.
Defined.

(** X14.  From the file to the grid: a user with no record on a date that
    has records gets, on that date, influence 0 and the rank [K], the number
    of distinct unified names with a record on that date. *)
Theorem synthesized_rank_counts_the_users_of_the_date
    (sort_values : list GroupedRow -> list GroupedRow)
    (sort_values_ok : sort_values_spec sort_values)
    (csv : list RawRecord) (grid : list MergedRow) (d : Z) (u : string)
    (Hgrid : create_all_dates_user_df
               (load_and_preprocess_data sort_values csv) = Some grid)
    (Hdate : exists r, In r csv /\ raw_Date r = d)
    (Huser : exists r, In r csv /\ unify_name (raw_User r) = u)
    (Habsent : forall r, In r csv -> raw_Date r = d ->
                         unify_name (raw_User r) <> u) :
  let K := List.length
             (unique (map (fun r => unify_name (raw_User r))
                        (filter (fun r => raw_Date r =? d) csv))) in
  In (mkMerged d u (Some 0) (Some (Z.of_nat K))) grid.
Proof.
  intros K.
  set (df := load_and_preprocess_data sort_values csv) in *.
  assert (one_row_per_key df) as Hkeys
      by now apply load_and_preprocess_data_one_row_per_key.
  destruct (create_all_dates_user_df_inv df grid Hgrid)
    as (first & last & Hfirst & Hlast & ->).
  assert (In d (map Date df)) as Hd.
  { destruct Hdate as (r & Hr & Hrd).
    assert (In (d, unify_name (raw_User r)) (map row_key df)) as Hk
        by (apply ranked_keys; eauto).
    apply in_map_iff in Hk. destruct Hk as (row & [= Hrow _] & Hin).
    rewrite <- Hrow. now apply in_map. }
  assert (In u (map UnifiedUser df)) as Hu.
  { destruct Huser as (r & Hr & Hru).
    assert (In (raw_Date r, u) (map row_key df)) as Hk
        by (apply ranked_keys; eauto).
    apply in_map_iff in Hk. destruct Hk as (row & [= _ Hrow] & Hin).
    rewrite <- Hrow. now apply in_map. }
  assert (~ In (d, u) (map row_key df)) as Hout.
  { intros Hk. apply (ranked_keys sort_values csv d u sort_values_ok) in Hk.
    destruct Hk as (r & Hr & Hrd & Hru). now apply (Habsent r). }
  destruct (max_rank_on_date df first last Hkeys Hfirst Hlast d Hd)
    as (bottom & Hmax & (rb & Hrb & Hrbd & Hrbk) & Hle).
  assert (forall x, In x (range 1 (Z.of_nat K + 1)) <->
                    exists r, In r df /\ Date r = d /\ Rank r = x) as Hranks.
  { intros x. unfold K.
    rewrite <- (ranks_on_date sort_values csv d sort_values_ok).
    fold df. rewrite in_map_iff. split.
    - intros (r & Hx & Hr). apply filter_In in Hr. exists r.
      repeat split; [tauto | lia | exact Hx].
    - intros (r & Hr & Hrd & Hx). exists r. split; [exact Hx|].
      apply filter_In. split; [exact Hr | lia]. }
  assert (bottom = Z.of_nat K) as <-.
  { assert (In bottom (range 1 (Z.of_nat K + 1))) as Hb
        by (apply Hranks; eauto).
    apply In_range in Hb.
    assert (In (Z.of_nat K) (range 1 (Z.of_nat K + 1))) as HK
        by (apply In_range; lia).
    apply Hranks in HK. destruct HK as (r & Hr & Hrd & HrK).
    specialize (Hle r Hr Hrd). lia. }
  apply (synthesized_row_in_grid df first last Hkeys); auto.
  apply In_full_df. split; [|exact Hu].
  now apply (dates_within_bounds df first last Hfirst Hlast).
Qed.

Lemma synthesized_rank_counts_the_users_of_the_date_witness :
  let csv := [mkRaw 1 "Sullivan Jr." 10; mkRaw 1 "Deb H." 20;
              mkRaw 2 "deb" 7]%string in
  exists grid,
    create_all_dates_user_df
      (load_and_preprocess_data sort_values_keep_ties csv) = Some grid
    /\ In (mkMerged 2 "Sullivan" (Some 0) (Some 1)) grid.
Proof.
  eexists. split; [vm_compute; reflexivity|].
  apply (synthesized_rank_counts_the_users_of_the_date
           sort_values_keep_ties sort_values_keep_ties_spec
           [mkRaw 1 "Sullivan Jr." 10; mkRaw 1 "Deb H." 20;
            mkRaw 2 "deb" 7]%string _ 2 "Sullivan").
  - vm_compute. reflexivity.
  - exists (mkRaw 2 "deb" 7). split; [simpl; tauto | reflexivity].
  - exists (mkRaw 1 "Sullivan Jr." 10). split; [simpl; tauto | reflexivity].
  - intros r [<- | [<- | [<- | []]]]; simpl; intros Hd; discriminate.
Defined.

End DensifierMore.

(* ------------------------------------------------------------------ *)
(** * Facts about the data path of [main] *)
(* ------------------------------------------------------------------ *)

Module DashboardFacts.
Import Frames Pipeline Dashboard FramesFacts PipelineFacts PipelineMore.
Local Open Scope Z_scope.
Local Open Scope list_scope.

(** ** The sort of the totals *)




(** ** The filters at the default values of the sliders *)

Lemma default_date_range_keeps_all df_full date_range :
  default_date_range df_full = Some date_range ->
  filter_dates date_range df_full = df_full.
Proof.
  unfold default_date_range.
  destruct (column_min (map m_Date df_full)) as [lo|] eqn:Hlo; [|discriminate].
  destruct (column_max (map m_Date df_full)) as [hi|] eqn:Hhi; [|discriminate].
  intros [= <-]. apply filter_all. apply Forall_forall. intros r Hr. simpl.
  destruct (column_min_spec _ _ Hlo) as [_ Hmin].
  destruct (column_max_spec _ _ Hhi) as [_ Hmax].
  assert (In (m_Date r) (map m_Date df_full)) as Hd by now apply in_map.
  specialize (Hmin _ Hd). specialize (Hmax _ Hd).
  apply andb_true_iff. split; apply Z.leb_le; assumption.
Qed.

Lemma default_influence_range_keeps_all df_filtered influence_range :
  (forall r, In r df_filtered -> m_Influence r <> None) ->
  default_influence_range df_filtered = Some influence_range ->
  filter_influence influence_range df_filtered = df_filtered.
Proof.
  intros Hpresent. unfold default_influence_range.
  destruct (column_min (dropna (map m_Influence df_filtered))) as [lo|] eqn:Hlo;
    [|discriminate].
  destruct (column_max (dropna (map m_Influence df_filtered))) as [hi|] eqn:Hhi;
    [|discriminate].
  intros [= <-]. apply filter_all. apply Forall_forall. intros r Hr. simpl.
  destruct (column_min_spec _ _ Hlo) as [_ Hmin].
  destruct (column_max_spec _ _ Hhi) as [_ Hmax].
  destruct (m_Influence r) as [x|] eqn:Hx;
    [|exfalso; now apply (Hpresent r Hr)].
  assert (In x (dropna (map m_Influence df_filtered))) as Hin
      by (apply In_dropna; rewrite <- Hx; now apply in_map).
  specialize (Hmin _ Hin). specialize (Hmax _ Hin). simpl.
  apply andb_true_iff. split; apply Z.leb_le; assumption.
Qed.

Lemma default_influence_range_some df_filtered :
  df_filtered <> [] ->
  (forall r, In r df_filtered -> m_Influence r <> None) ->
  exists influence_range,
    default_influence_range df_filtered = Some influence_range.
Proof.
  intros Hne Hpresent. unfold default_influence_range.
  destruct df_filtered as [|r rest]; [congruence|].
  destruct (m_Influence r) as [x|] eqn:Hx;
    [|exfalso; apply (Hpresent r); [now left | exact Hx]].
  destruct (column_min_some (dropna (map m_Influence (r :: rest))))
    as [lo ->]; [simpl; rewrite Hx; discriminate|].
  destruct (column_max_some (dropna (map m_Influence (r :: rest))))
    as [hi ->]; [simpl; rewrite Hx; discriminate|].
  eauto.
Qed.

Lemma filled_influence_present merged m :
  In m (groupby_date_apply m_Date fill_missing merged) ->
  m_Influence m <> None.
Proof.
  intros Hm. apply In_filled in Hm. destruct Hm as (m0 & _ & ->). simpl.
  destruct (m_Influence m0); discriminate.
Qed.

(** ** The totals by user *)





Lemma StronglySorted_app_inv {A : Type} (R : A -> A -> Prop) (l1 l2 : list A) :
  StronglySorted R (l1 ++ l2) ->
  StronglySorted R l1 /\ forall a b, In a l1 -> In b l2 -> R a b.
Proof.
  induction l1 as [|x l1 IH]; simpl; intros H.
  - split; [constructor | intros a b []].
  - inversion H as [|? ? Hs Hall]; subst.
    destruct (IH Hs) as [Hs1 Hcross]. rewrite Forall_forall in Hall. split.
    + constructor; [exact Hs1|]. apply Forall_forall. intros y Hy.
      apply Hall. apply in_or_app. now left.
    + intros a b [<- | Ha] Hb; [|now apply Hcross].
      apply Hall. apply in_or_app. now right.
Qed.

(** ** Properties *)

(** ** The options of the multiselect *)

Lemma string_leb_total x y : String.leb x y = false -> String.leb y x = true.
Proof.
  intros H. destruct (String.leb_total x y) as [H' | H']; congruence.
Qed.

Lemma string_leb_cases x y :
  String.leb x y = true <-> String.compare x y = Lt \/ x = y.
Proof.
  unfold String.leb. split.
  - destruct (String.compare x y) eqn:E; [|auto|discriminate].
    intros _. right. now apply String.compare_eq_iff.
  - intros [-> | ->]; [reflexivity|]. now rewrite string_compare_refl.
Qed.

Lemma string_leb_trans x y z :
  String.leb x y = true -> String.leb y z = true -> String.leb x z = true.
Proof.
  rewrite !string_leb_cases.
  intros [Hxy | ->] [Hyz | ->]; auto.
  left. now apply (string_compare_trans x y z).
Qed.

Lemma insert_sorted_perm name names :
  Permutation (name :: names) (insert_sorted name names).
Proof.
  induction names as [|name' names IH]; simpl; [reflexivity|].
  destruct (String.leb name name'); [reflexivity|].
  rewrite perm_swap. now constructor.
Qed.

Lemma insert_sorted_sorted name names :
  StronglySorted (fun a b => String.leb a b = true) names ->
  StronglySorted (fun a b => String.leb a b = true) (insert_sorted name names).
Proof.
  induction 1 as [|name' names Hs IH Hall]; simpl.
  - repeat constructor.
  - destruct (String.leb name name') eqn:E.
    + constructor; [now constructor|]. constructor; [exact E|].
      eapply Forall_impl; [|exact Hall]. simpl. intros z Hz.
      now apply (string_leb_trans name name' z).
    + constructor; [exact IH|].
      apply (Permutation_Forall (insert_sorted_perm name names)).
      constructor; [now apply string_leb_total | exact Hall].
Qed.

Lemma sorted_perm names : Permutation names (sorted names).
Proof.
  induction names as [|name names IH]; simpl; [reflexivity|].
  rewrite <- insert_sorted_perm. now constructor.
Qed.

Lemma sorted_sorted names :
  StronglySorted (fun a b => String.leb a b = true) (sorted names).
Proof.
  induction names as [|name names IH]; simpl; [constructor|].
  now apply insert_sorted_sorted.
Qed.

(** X15.  With both sliders at their default values, the filtered view of the
    grid is exactly the rows of the selected users: neither the date filter
    nor the influence filter drops a row. *)
Theorem default_sliders_keep_the_selected_users
    (df : list Row) (df_full : list MergedRow)
    (selected_users : list string) (date_range influence_range : Z * Z)
    (Hgrid : create_all_dates_user_df df = Some df_full)
    (Hdates : default_date_range df_full = Some date_range)
    (Hinfluence :
       default_influence_range
         (filter_users selected_users (filter_dates date_range df_full))
       = Some influence_range) :
  filter_influence influence_range
    (filter_users selected_users (filter_dates date_range df_full))
  = filter_users selected_users df_full.
Proof.
  rewrite default_influence_range_keeps_all; [| |exact Hinfluence].
  - now rewrite default_date_range_keeps_all.
  - intros r Hr. apply filter_In in Hr. destruct Hr as [Hr _].
    apply filter_In in Hr. destruct Hr as [Hr _].
    destruct (create_all_dates_user_df_inv df df_full Hgrid)
      as (first & last & _ & _ & ->).
    exact (filled_influence_present _ r Hr).
Qed.

Lemma default_sliders_keep_the_selected_users_witness :
  let df_full :=
    [mkMerged 1 "A" (Some 5) (Some 1); mkMerged 1 "B" (Some 3) (Some 2);
     mkMerged 2 "A" (Some 0) None; mkMerged 2 "B" (Some 0) None;
     mkMerged 3 "A" (Some 4) (Some 1);
     mkMerged 3 "B" (Some 0) (Some 1)]%string in
  filter_influence (0, 3)
    (filter_users ["B"]%string (filter_dates (1, 3) df_full))
  = filter_users ["B"]%string df_full.
Proof.
  apply (default_sliders_keep_the_selected_users
           [mkRow 1 "A" 5 1; mkRow 1 "B" 3 2; mkRow 3 "A" 4 1]%string);
    reflexivity.
Defined.



(** X17.  The options of the user multiselect are the users of the grid,
    each once, in ascending order; the default selection is the first three
    of them (all of them when there are fewer), so every option left out of
    the default comes after every default user. *)
Theorem default_selection_is_the_first_three_users
    (df_full : list MergedRow) :
  let options := all_users_sorted df_full in
  let selection := default_selected_users df_full in
  NoDup options
  /\ (forall user, In user options <-> In user (map m_UnifiedUser df_full))
  /\ StronglySorted (fun a b => String.leb a b = true) options
  /\ List.length selection = Nat.min 3 (List.length options)
  /\ (forall user, In user selection -> In user options)
  /\ (forall user other,
        In user selection -> In other options -> ~ In other selection ->
        String.leb user other = true /\ user <> other).
Proof.
  intros options selection. unfold selection, default_selected_users.
  fold options.
  assert (Permutation (unique (map m_UnifiedUser df_full)) options) as Hperm
      by apply sorted_perm.
  assert (NoDup options) as Hnd
      by (apply (Permutation_NoDup Hperm), NoDup_unique).
  assert (StronglySorted (fun a b => String.leb a b = true) options) as Hsorted
      by apply sorted_sorted.
  assert (firstn 3 options ++ skipn 3 options = options) as Hsplit
      by apply firstn_skipn.
  split; [exact Hnd | split; [|split; [exact Hsorted | split; [|split]]]].
  - intros user. rewrite <- (In_unique (map m_UnifiedUser df_full)). split.
    + apply (Permutation_in _ (Permutation_sym Hperm)).
    + apply (Permutation_in _ Hperm).
  - apply length_firstn.
  - intros user Hu. rewrite <- Hsplit. apply in_or_app. now left.
  - intros user other Hu Ho Hout.
    rewrite <- Hsplit in Hsorted, Hnd, Ho.
    apply in_app_or in Ho. destruct Ho as [Ho | Ho]; [contradiction|].
    apply StronglySorted_app_inv in Hsorted. destruct Hsorted as [_ Hcross].
    split; [now apply Hcross|].
    intros ->. apply NoDup_app_remove_l in Hnd as Hrest.
    clear - Hnd Hu Ho. induction (firstn 3 options) as [|x l IH];
      [contradiction|].
    simpl in Hnd. inversion Hnd as [|? ? Hx Hl]; subst.
    destruct Hu as [-> | Hu]; [|now apply IH].
    apply Hx. apply in_or_app. now right.
Qed.

End DashboardFacts.

(* ------------------------------------------------------------------ *)
(** * Facts about the columns as pandas stores them *)
(* ------------------------------------------------------------------ *)

Module DtypesFacts.
Import Unifier Frames Pipeline Dtypes FramesFacts PipelineFacts.
Local Open Scope Z_scope.
Local Open Scope list_scope.

(** ** 64-bit sums *)

Lemma wrap_int64_in_range z : in_int64 z -> wrap_int64 z = z.
Proof.
  unfold in_int64, wrap_int64. intros H.
  rewrite Z.mod_small by lia. lia.
Qed.

Lemma wrap_int64_add_l a b : wrap_int64 (wrap_int64 a + b) = wrap_int64 (a + b).
Proof.
  unfold wrap_int64. f_equal.
  replace ((a + 2 ^ 63) mod 2 ^ 64 - 2 ^ 63 + b + 2 ^ 63)
    with ((a + 2 ^ 63) mod 2 ^ 64 + b) by lia.
  rewrite Zplus_mod_idemp_l. f_equal. lia.
Qed.

Lemma wrap_int64_add_r a b : wrap_int64 (a + wrap_int64 b) = wrap_int64 (a + b).
Proof.
  rewrite (Z.add_comm a (wrap_int64 b)), wrap_int64_add_l. f_equal. lia.
Qed.

(** The 64-bit sum is the exact sum, wrapped once. *)
Lemma sum_int64_wraps column : sum_int64 column = wrap_int64 (column_sum column).
Proof.
  unfold sum_int64.
  assert (forall a,
            fold_left (fun acc x => wrap_int64 (acc + x)) column (wrap_int64 a)
            = wrap_int64 (a + column_sum column)) as H.
  { induction column as [|x column IH]; intros a; simpl.
    - f_equal. lia.
    - rewrite wrap_int64_add_l, IH. f_equal. unfold column_sum. simpl. lia. }
  apply (H 0).
Qed.

Lemma wrap_column_sum_map {A : Type} (f : A -> Z) (l : list A) :
  wrap_int64 (column_sum (map (fun x => wrap_int64 (f x)) l))
  = wrap_int64 (column_sum (map f l)).
Proof.
  induction l as [|x l IH]; [reflexivity|].
  change (wrap_int64 (wrap_int64 (f x)
                      + column_sum (map (fun x => wrap_int64 (f x)) l))
          = wrap_int64 (f x + column_sum (map f l))).
  rewrite wrap_int64_add_l.
  rewrite <- (wrap_int64_add_r (f x) (column_sum (map _ l))), IH.
  apply wrap_int64_add_r.
Qed.

(** ** The aggregated frame of an int64 column *)

Lemma groupby_sum_int64_on_date df D :
  filter (fun r => g_Date r =? D) (groupby_sum_int64 df)
  = map (fun k => mkGrouped (fst k) (snd k)
                    (wrap_int64
                       (column_sum
                          (map u_Influence
                             (filter (fun r => key_eqb (u_key r) k) df)))))
        (filter (fun k => fst k =? D) (group_keys key_compare (map u_key df))).
Proof.
  unfold groupby_sum_int64. rewrite filter_map_swap. simpl.
  apply map_ext. intros k. now rewrite sum_int64_wraps.
Qed.

Lemma load_and_preprocess_data_int64_on_date sort_values csv D :
  sort_values_spec sort_values ->
  filter (fun r => Date r =? D) (load_and_preprocess_data_int64 sort_values csv)
  = compute_daily_ranks sort_values
      (filter (fun r => g_Date r =? D)
         (groupby_sum_int64 (apply_unify_name csv))).
Proof.
  intros Hsort. unfold load_and_preprocess_data_int64.
  apply (groupby_date_apply_on_date g_Date Date).
  - now apply compute_daily_ranks_keeps_date.
  - unfold compute_daily_ranks. now rewrite (sort_values_nil sort_values Hsort).
Qed.

(** The total influences of a date, key by key. *)
Lemma totals_on_date sort_values csv D :
  sort_values_spec sort_values ->
  Permutation
    (map Political_Influence
       (filter (fun r => Date r =? D)
          (load_and_preprocess_data_int64 sort_values csv)))
    (map (fun k => wrap_int64
                     (column_sum
                        (map u_Influence
                           (filter (fun r => key_eqb (u_key r) k)
                              (apply_unify_name csv)))))
         (filter (fun k => fst k =? D)
            (group_keys key_compare (map u_key (apply_unify_name csv))))).
Proof.
  intros Hsort.
  rewrite (load_and_preprocess_data_int64_on_date sort_values csv D Hsort).
  change Political_Influence with (fun r => g_Influence (unrank r)).
  rewrite <- (map_map unrank g_Influence), compute_daily_ranks_rows.
  rewrite <- (proj1 (Hsort _)).
  rewrite groupby_sum_int64_on_date, map_map. reflexivity.
Qed.

Lemma exact_sum_on_date csv D :
  column_sum
    (map (fun k => column_sum
                     (map u_Influence
                        (filter (fun r => key_eqb (u_key r) k)
                           (apply_unify_name csv))))
         (filter (fun k => fst k =? D)
            (group_keys key_compare (map u_key (apply_unify_name csv)))))
  = column_sum (map raw_Influence (filter (fun r => raw_Date r =? D) csv)).
Proof.
  rewrite groupby_sum_conserves.
  - f_equal. apply apply_unify_name_on_date. reflexivity.
  - apply NoDup_key_keys.
  - intros r Hr. apply In_key_keys. now apply in_map.
Qed.

Lemma group_sum_of_records csv k :
  column_sum (map u_Influence
                (filter (fun r => key_eqb (u_key r) k) (apply_unify_name csv)))
  = column_sum
      (map raw_Influence
         (filter (fun r => (raw_Date r =? fst k)
                           && (unify_name (raw_User r) =? snd k)%string)
            csv)).
Proof.
  unfold apply_unify_name. rewrite filter_map_swap, map_map. reflexivity.
Qed.

(** ** Conservation of the influence of a date *)

(** C6, as the specification words it, fails: two records of 2^62 for one
    user on one date give a total influence of -2^63 (the 64-bit sum wraps),
    and the raw influence values of that date add up to 2^63. *)
Lemma int64_group_sum_wraps :
  let csv := [mkRaw 1 "Ann" 4611686018427387904;
              mkRaw 1 "Ann" 4611686018427387904]%string in
  load_and_preprocess_data_int64 sort_values_keep_ties csv
  = [mkRow 1 "Ann" (-9223372036854775808) 1]%string
  /\ column_sum
       (map Political_Influence
          (filter (fun r => Date r =? 1)
             (load_and_preprocess_data_int64 sort_values_keep_ties csv)))
     <> column_sum
          (map raw_Influence (filter (fun r => raw_Date r =? 1) csv)).
Proof.
  split; [vm_compute; reflexivity | vm_compute; discriminate].
Qed.

(** C6, amended.  For a [Political Influence] column of whole numbers (int64)
    and every date: the total influences of the aggregated output and the
    raw influence values of that date have the same sum when both are summed
    as pandas sums them, in 64 bits; and they have the same sum as numbers
    when no total of a user on that date leaves the int64 range. *)
Theorem total_influence_conserved_on_date_int64
    (sort_values : list GroupedRow -> list GroupedRow)
    (sort_values_ok : sort_values_spec sort_values)
    (csv : list RawRecord) (D : Z) :
  let totals :=
    map Political_Influence
      (filter (fun r => Date r =? D)
         (load_and_preprocess_data_int64 sort_values csv)) in
  let raw := map raw_Influence (filter (fun r => raw_Date r =? D) csv) in
  sum_int64 totals = sum_int64 raw
  /\ ((forall user,
         in_int64
           (column_sum
              (map raw_Influence
                 (filter (fun r => (raw_Date r =? D)
                                   && (unify_name (raw_User r) =? user)%string)
                    csv)))) ->
      column_sum totals = column_sum raw).
Proof.
  intros totals raw. unfold totals, raw.
  pose proof (totals_on_date sort_values csv D sort_values_ok) as Hperm.
  split.
  - rewrite !sum_int64_wraps, (column_sum_perm _ _ Hperm).
    rewrite wrap_column_sum_map. now rewrite exact_sum_on_date.
  - intros Hrange. rewrite (column_sum_perm _ _ Hperm).
    rewrite <- exact_sum_on_date. f_equal. apply map_ext_in.
    intros [d user] Hk. apply filter_In in Hk. destruct Hk as [_ Hd].
    simpl in Hd. apply Z.eqb_eq in Hd. subst d.
    apply wrap_int64_in_range. rewrite group_sum_of_records. apply Hrange.
Qed.

Lemma total_influence_conserved_on_date_int64_witness :
  let csv := [mkRaw 1 "Sullivan Jr." 10; mkRaw 1 "sullivan" 5;
              mkRaw 1 "Deb H." 20; mkRaw 2 "Zed" 1]%string in
  let totals :=
    map Political_Influence
      (filter (fun r => Date r =? 1)
         (load_and_preprocess_data_int64 sort_values_keep_ties csv)) in
  let raw := map raw_Influence (filter (fun r => raw_Date r =? 1) csv) in
  sum_int64 totals = sum_int64 raw
  /\ ((forall user,
         in_int64
           (column_sum
              (map raw_Influence
                 (filter (fun r => (raw_Date r =? 1)
                                   && (unify_name (raw_User r) =? user)%string)
                    csv)))) ->
      column_sum totals = column_sum raw).
Proof.
  apply (total_influence_conserved_on_date_int64
           sort_values_keep_ties sort_values_keep_ties_spec).
Defined.

(** ** The merge and float64 *)








End DtypesFacts.
